(** * yamlmodule: the YAML bridge of Skycfg, embedded and verified

    The development follows [go/yamlmodule/yamlmodule.go].  The Go packages
    the file touches become modules of the same name:

    - [reflect]   : the kinds of Go's runtime type inspection;
    - [starlark]  : the runtime values the decoder builds, the insertion
                    ordered dictionary, and the argument unpacking helper;
    - [yamlmodule]: the package itself ([toStarlarkScalarValue],
                    [toStarlarkValue], [yamlDecode], [yamlEncode],
                    [NewModule]).

    The YAML codec ([yaml.Unmarshal], [yaml.Marshal]) and the JSON writer
    ([writeJSON]) are collaborators whose code is not part of the file; they
    are variables of the section that holds the two entry points. *)

From Stdlib Require Import ZArith List String Ascii Bool Lia.
From Stdlib Require Import Floats.SpecFloat.
Import ListNotations.

Local Open Scope string_scope.
Local Open Scope list_scope.
Local Open Scope Z_scope.
Local Set Warnings "-register-all".

(** A Go [float64], as the Standard Library's model of IEEE 754 values. *)
Definition float64 : Type := spec_float.

(* ------------------------------------------------------------------ *)
(** ** Package reflect *)

Module reflect.

(** [reflect.Kind], in the order of the Go declaration. *)
Inductive Kind : Type :=
| Invalid | Bool
| Int | Int8 | Int16 | Int32 | Int64
| Uint | Uint8 | Uint16 | Uint32 | Uint64 | Uintptr
| Float32 | Float64 | Complex64 | Complex128
| Array | Chan | Func | Interface | Map | Pointer | Slice
| String | Struct | UnsafePointer.

(** [Kind.String()], what the verb [%s] prints for a kind. *)
Definition Kind_String (k : Kind) : string :=
  match k with
  | Invalid => "invalid" | Bool => "bool"
  | Int => "int" | Int8 => "int8" | Int16 => "int16"
  | Int32 => "int32" | Int64 => "int64"
  | Uint => "uint" | Uint8 => "uint8" | Uint16 => "uint16"
  | Uint32 => "uint32" | Uint64 => "uint64" | Uintptr => "uintptr"
  | Float32 => "float32" | Float64 => "float64"
  | Complex64 => "complex64" | Complex128 => "complex128"
  | Array => "array" | Chan => "chan" | Func => "func"
  | Interface => "interface" | Map => "map" | Pointer => "ptr"
  | Slice => "slice" | String => "string" | Struct => "struct"
  | UnsafePointer => "unsafe.Pointer"
  end.

End reflect.

(* ------------------------------------------------------------------ *)
(** ** Go values behind [interface{}] *)

(** The widths of Go's integer types ([int], [int8], ... and [uint],
    [uint8], ...) and of its floating point types. *)
Inductive IntWidth : Type := W | W8 | W16 | W32 | W64.
Inductive FloatWidth : Type := F32 | F64.

(** The kinds [toStarlarkValue] does not convert.  [TypedMap] and
    [TypedSlice] stand for values of kind map or slice whose type is not
    [map[interface{}]interface{}] or [[]interface{}]. *)
Inductive OtherKind : Type :=
| OUintptr | OComplex64 | OComplex128 | OArray | OChan | OFunc
| OPointer | OStruct | OUnsafePointer | TypedMap | TypedSlice.

(** A value of type [interface{}].  An integer carries what
    [reflect.Value.Int] or [Uint] returns, a float what [Float] returns (a
    [float32] widened to [float64]).  A map is the list of its entries in
    the order the [range] loop visits them; a slice is the list of its
    elements.  [GoOther] carries the text [%v] prints for the value. *)
Inductive GoValue : Type :=
| nil
| GoInt (w : IntWidth) (i : Z)
| GoUint (w : IntWidth) (u : Z)
| GoBool (b : bool)
| GoFloat (w : FloatWidth) (f : float64)
| GoString (s : string)
| GoMap (m : list (GoValue * GoValue))
| GoSlice (slice : list GoValue)
| GoOther (k : OtherKind) (printed : string).

(** [reflect.TypeOf(obj).Kind()] for a non-nil [obj]; [reflect.TypeOf(nil)]
    is the nil type, whose kind the code never asks for. *)
Definition Kind_of (obj : GoValue) : reflect.Kind :=
  match obj with
  | nil => reflect.Invalid
  | GoInt W _ => reflect.Int
  | GoInt W8 _ => reflect.Int8
  | GoInt W16 _ => reflect.Int16
  | GoInt W32 _ => reflect.Int32
  | GoInt W64 _ => reflect.Int64
  | GoUint W _ => reflect.Uint
  | GoUint W8 _ => reflect.Uint8
  | GoUint W16 _ => reflect.Uint16
  | GoUint W32 _ => reflect.Uint32
  | GoUint W64 _ => reflect.Uint64
  | GoBool _ => reflect.Bool
  | GoFloat F32 _ => reflect.Float32
  | GoFloat F64 _ => reflect.Float64
  | GoString _ => reflect.String
  | GoMap _ => reflect.Map
  | GoSlice _ => reflect.Slice
  | GoOther OUintptr _ => reflect.Uintptr
  | GoOther OComplex64 _ => reflect.Complex64
  | GoOther OComplex128 _ => reflect.Complex128
  | GoOther OArray _ => reflect.Array
  | GoOther OChan _ => reflect.Chan
  | GoOther OFunc _ => reflect.Func
  | GoOther OPointer _ => reflect.Pointer
  | GoOther OStruct _ => reflect.Struct
  | GoOther OUnsafePointer _ => reflect.UnsafePointer
  | GoOther TypedMap _ => reflect.Map
  | GoOther TypedSlice _ => reflect.Slice
  end.

(* ------------------------------------------------------------------ *)
(** ** Package starlark (go.starlark.net) *)

Module starlark.

(** The runtime values the decoder builds.  A [Dict] is the list of its
    items in insertion order. *)
Inductive Value : Type :=
| None
| Bool (b : bool)
| Int (n : Z)
| Float (f : float64)
| String (s : string)
| List (elems : list Value)
| Dict (items : list (Value * Value)).

Definition Tuple : Type := list Value.

(** [Value.Type()]. *)
Definition Type_ (v : Value) : string :=
  match v with
  | None => "NoneType" | Bool _ => "bool" | Int _ => "int"
  | Float _ => "float" | String _ => "string"
  | List _ => "list" | Dict _ => "dict"
  end.

(** [MakeInt64] and [MakeUint64] build the arbitrary precision integer
    that has the value of their argument. *)
Definition MakeInt64 (x : Z) : Value := Int x.
Definition MakeUint64 (x : Z) : Value := Int x.

(** [NewList] wraps the elements it is given. *)
Definition NewList (elems : list Value) : Value := List elems.

(** The errors of the package that the code can meet. *)
Inductive error : Type :=
| UnexpectedKeywordArguments (fnname : string)
| GotArguments (fnname : string) (got : nat) (atleast atmost : bool)
               (want : nat)
| ForParameter (fnname : string) (i : nat) (got want : string)
| Unhashable (type : string).

(** *** Equality of dictionary keys *)

(** An integer against a float: the comparison of the two exact
    rationals; no integer equals a NaN or an infinity. *)
Definition Int_eq_Float (n : Z) (f : float64) : bool :=
  match f with
  | S754_zero _ => n =? 0
  | S754_finite s m e =>
      let sm := if s then Z.neg m else Z.pos m in
      if 0 <=? e then n =? sm * 2 ^ e else n * 2 ^ (- e) =? sm
  | S754_infinity _ | S754_nan => false
  end.

(** Floats are totally ordered by [floatCmp]: IEEE equality, with the
    NaNs equal to each other. *)
Definition floatCmp_eq (x y : float64) : bool :=
  match x, y with
  | S754_nan, S754_nan => true
  | _, _ => SFeqb x y
  end.

(** [Equal(x, y)] on the hashable values that dictionaries hold as keys.
    Values of different types are unequal, except that an integer and a
    float are compared as numbers. *)
Definition Equal (x y : Value) : bool :=
  match x, y with
  | None, None => true
  | Bool a, Bool b => Bool.eqb a b
  | Int a, Int b => a =? b
  | Float a, Float b => floatCmp_eq a b
  | Int a, Float b => Int_eq_Float a b
  | Float a, Int b => Int_eq_Float b a
  | String a, String b => String.eqb a b
  | _, _ => false
  end.

(** *** The dictionary *)

Definition items : Type := list (Value * Value).

(** [Dict.Get]. *)
Fixpoint Get (d : items) (k : Value) : option Value :=
  match d with
  | [] => Datatypes.None
  | (k', v') :: d' => if Equal k k' then Some v' else Get d' k
  end.

(** The hash table's insertion: the value of an entry whose key equals
    [k] is replaced where the entry stands; a new key is added last. *)
Fixpoint insert (d : items) (k v : Value) : items :=
  match d with
  | [] => [(k, v)]
  | (k', v') :: d' =>
      if Equal k k' then (k', v) :: d' else (k', v') :: insert d' k v
  end.

(** [Dict.SetKey] on a dictionary that is neither frozen nor being
    iterated: it fails on a key that has no hash. *)
Definition SetKey (d : items) (k v : Value) : error + items :=
  match k with
  | List _ | Dict _ => inl (Unhashable (Type_ k))
  | _ => inr (insert d k v)
  end.

(** *** Argument unpacking *)

(** The variables whose addresses [UnpackPositionalArgs] is given: a Go
    [string] or a [starlark.Value] (nil before it is assigned). *)
Inductive Var : Type :=
| StringVar (s : string)
| ValueVar (v : option Value).

(** [unpackOneArg]: a [*string] takes a string value only, a [*Value]
    takes any value. *)
Definition unpackOneArg (v : Value) (ptr : Var) : string + Var :=
  match ptr with
  | StringVar _ =>
      match v with
      | String s => inr (StringVar s)
      | _ => inl (Type_ v)
      end
  | ValueVar _ => inr (ValueVar (Some v))
  end.

Fixpoint unpackArgs (fnname : string) (i : nat) (args : Tuple)
         (vars : list Var) : error + list Var :=
  match args, vars with
  | arg :: args', ptr :: vars' =>
      match unpackOneArg arg ptr with
      | inl got => inl (ForParameter fnname (S i) got "string")
      | inr x =>
          match unpackArgs fnname (S i) args' vars' with
          | inl err => inl err
          | inr xs => inr (x :: xs)
          end
      end
  | _, _ => inr vars
  end.

(** [UnpackPositionalArgs(fnname, args, kwargs, min, vars...)]: the
    variables after the call, or the error. *)
Definition UnpackPositionalArgs (fnname : string) (args : Tuple)
           (kwargs : list Tuple) (min : nat) (vars : list Var)
  : error + list Var :=
  let max := List.length vars in
  if (0 <? List.length kwargs)%nat then
    inl (UnexpectedKeywordArguments fnname)
  else if (List.length args <? min)%nat then
    inl (GotArguments fnname (List.length args) (min <? max)%nat false min)
  else if (max <? List.length args)%nat then
    inl (GotArguments fnname (List.length args) false (min <? max)%nat max)
  else unpackArgs fnname 0 args vars.

End starlark.

(* ------------------------------------------------------------------ *)
(** ** Package yamlmodule *)

Module yamlmodule.

(** The errors the package returns: those of [starlark], those of the
    two codecs (kept as their message), and the two it formats itself,
    [fmt.Errorf("%s (%v) is not a supported key type", rt.Kind(), obj)]
    and [fmt.Errorf("%s (%v) is not a supported type", rt.Kind(), obj)],
    kept with the two arguments of the format. *)
Inductive error : Type :=
| StarlarkError (err : starlark.error)
| CodecError (msg : string)
| NotSupportedKeyType (kind : reflect.Kind) (obj : GoValue)
| NotSupportedType (kind : reflect.Kind) (obj : GoValue).

(** [err.Error()] for the errors the package formats and for those of the
    codecs, given the rendering of the verb [%v]; the messages of
    [starlark]'s errors are not spelled out. *)
Definition Error (fmt_v : GoValue -> string) (e : error) : option string :=
  match e with
  | NotSupportedKeyType kind obj =>
      Some (reflect.Kind_String kind ++ " (" ++ fmt_v obj
            ++ ") is not a supported key type")%string
  | NotSupportedType kind obj =>
      Some (reflect.Kind_String kind ++ " (" ++ fmt_v obj
            ++ ") is not a supported type")%string
  | CodecError msg => Some msg
  | StarlarkError _ => None
  end.

(** What a call does: it returns a value, returns an error, or panics
    (a failed type assertion). *)
Inductive result (A : Type) : Type :=
| Ok (a : A)
| Err (err : error)
| Panic.
Arguments Ok {A} a.
Arguments Err {A} err.
Arguments Panic {A}.

Definition bind {A B : Type} (r : result A) (f : A -> result B)
  : result B :=
  match r with
  | Ok a => f a
  | Err err => Err err
  | Panic => Panic
  end.

Notation "x <- r ;; k" := (bind r (fun x => k))
  (at level 61, r at next level, right associativity).

(** [toStarlarkScalarValue]: [Some v] is the pair [(v, true)] of the
    source, [None] its [(nil, false)]. *)
Definition toStarlarkScalarValue (obj : GoValue) : option starlark.Value :=
  match obj with
  | nil => Some starlark.None
  | GoInt _ i => Some (starlark.MakeInt64 i)
  | GoUint _ u => Some (starlark.MakeUint64 u)
  | GoBool b => Some (starlark.Bool b)
  | GoFloat _ f => Some (starlark.Float f)
  | GoString s => Some (starlark.String s)
  | GoMap _ | GoSlice _ | GoOther _ _ => None
  end.

(** [toStarlarkValue], the depth-first walk.  The two [range] loops are
    the local fixpoints: the one over a map carries the dictionary [ret]
    built so far, the one over a slice the elements [starvals] filled so
    far. *)
Fixpoint toStarlarkValue (obj : GoValue) : result starlark.Value :=
  match toStarlarkScalarValue obj with
  | Some objval => Ok objval
  | None =>
      match obj with
      | GoMap m =>
          (fix range (m : list (GoValue * GoValue)) (ret : starlark.items)
             : result starlark.Value :=
             match m with
             | [] => Ok (starlark.Dict ret)
             | (k, v) :: rest =>
                 match toStarlarkScalarValue k with
                 | None => Err (NotSupportedKeyType (Kind_of obj) obj)
                 | Some keyval =>
                     match toStarlarkValue v with
                     | Ok starval =>
                         match starlark.SetKey ret keyval starval with
                         | inl err => Err (StarlarkError err)
                         | inr ret' => range rest ret'
                         end
                     | Err err => Err err
                     | Panic => Panic
                     end
                 end
             end) m []
      | GoSlice slice =>
          (fix range (slice : list GoValue) (starvals : list starlark.Value)
             : result starlark.Value :=
             match slice with
             | [] => Ok (starlark.NewList starvals)
             | element :: rest =>
                 match toStarlarkValue element with
                 | Ok v => range rest (starvals ++ [v])
                 | Err err => Err err
                 | Panic => Panic
                 end
             end) slice []
      | GoOther TypedMap _ | GoOther TypedSlice _ => Panic
      | _ => Err (NotSupportedType (Kind_of obj) obj)
      end
  end.

(** The two loops on their own, to state what they do. *)
Fixpoint rangeMap (obj : GoValue) (m : list (GoValue * GoValue))
         (ret : starlark.items) : result starlark.Value :=
  match m with
  | [] => Ok (starlark.Dict ret)
  | (k, v) :: rest =>
      match toStarlarkScalarValue k with
      | None => Err (NotSupportedKeyType (Kind_of obj) obj)
      | Some keyval =>
          starval <- toStarlarkValue v ;;
          match starlark.SetKey ret keyval starval with
          | inl err => Err (StarlarkError err)
          | inr ret' => rangeMap obj rest ret'
          end
      end
  end.

Fixpoint rangeSlice (slice : list GoValue) (starvals : list starlark.Value)
  : result starlark.Value :=
  match slice with
  | [] => Ok (starlark.NewList starvals)
  | element :: rest =>
      v <- toStarlarkValue element ;;
      rangeSlice rest (starvals ++ [v])
  end.

(** *** The entry points *)

(** The variables a call of [UnpackPositionalArgs] has filled. *)
Definition string_var (vars : list starlark.Var) : string :=
  match vars with
  | starlark.StringVar s :: _ => s
  | _ => ""
  end.

Definition Value_var (vars : list starlark.Var) : option starlark.Value :=
  match vars with
  | starlark.ValueVar v :: _ => v
  | _ => None
  end.

Section EntryPoints.

(** [yaml.Unmarshal(in, &out)] for an [out] of type [interface{}] that
    is nil before the call: the error, or what the call leaves in
    [out]; [None] when the input holds no document and [out] is left
    as it was. *)
Variable yaml_Unmarshal : string -> string + option GoValue.

(** [yaml.Marshal(in)]: the error or the YAML text. *)
Variable yaml_Marshal : GoValue -> string + string.

(** [writeJSON(&buf, v)] on an empty buffer: the error, or the bytes
    the buffer holds after the call. *)
Variable writeJSON : starlark.Value -> string + string.

(** An interface variable after [yaml.Unmarshal] has run on it. *)
Definition unmarshalled (out : GoValue) (r : option GoValue) : GoValue :=
  match r with
  | Some d => d
  | None => out
  end.

(** [yamlDecode].  Of [fn] the code reads [fn.Name()] only, and it
    does not read the thread [t]. *)
Definition yamlDecode (fn_Name : string) (args : starlark.Tuple)
           (kwargs : list starlark.Tuple) : result starlark.Value :=
  match starlark.UnpackPositionalArgs fn_Name args [] 1
          [starlark.StringVar ""] with
  | inl err => Err (StarlarkError err)
  | inr vars =>
      let blob := string_var vars in
      match yaml_Unmarshal blob with
      | inl msg => Err (CodecError msg)
      | inr r => toStarlarkValue (unmarshalled nil r)
      end
  end.

(** [yamlEncode].  The variable [v] cannot be nil after the unpacking
    of one argument has succeeded. *)
Definition yamlEncode (fn_Name : string) (args : starlark.Tuple)
           (kwargs : list starlark.Tuple) : result starlark.Value :=
  match starlark.UnpackPositionalArgs fn_Name args [] 1
          [starlark.ValueVar None] with
  | inl err => Err (StarlarkError err)
  | inr vars =>
      match Value_var vars with
      | None => Panic
      | Some v =>
          match writeJSON v with
          | inl msg => Err (CodecError msg)
          | inr buf =>
              match yaml_Unmarshal buf with
              | inl msg => Err (CodecError msg)
              | inr r =>
                  let jsonObj := unmarshalled nil r in
                  match yaml_Marshal jsonObj with
                  | inl msg => Err (CodecError msg)
                  | inr yamlBytes => Ok (starlark.String yamlBytes)
                  end
              end
          end
      end
  end.

(** A [*starlark.Builtin]: its name and the Go function behind it;
    calling it hands the function the builtin itself. *)
Record Builtin : Type := NewBuiltin {
  Name : string;
  fn : string -> starlark.Tuple -> list starlark.Tuple
       -> result starlark.Value
}.

Definition CallInternal (b : Builtin) (args : starlark.Tuple)
           (kwargs : list starlark.Tuple) : result starlark.Value :=
  fn b (Name b) args kwargs.

Definition starlarkDecode : Builtin := NewBuiltin "yaml.decode" yamlDecode.
Definition starlarkEncode : Builtin := NewBuiltin "yaml.encode" yamlEncode.

(** A [*starlarkstruct.Module]; its members are a [starlark.StringDict],
    here the list of the bindings. *)
Record Module : Type := {
  Module_Name : string;
  Members : list (string * Builtin)
}.

Definition NewModule : Module :=
  {| Module_Name := "yaml";
     Members := [ ("decode", starlarkDecode);
                  ("encode", starlarkEncode);
                  ("marshal", starlarkEncode);
                  ("unmarshal", starlarkDecode) ] |}.

(** The member a name is bound to. *)
Fixpoint member (name : string) (ms : list (string * Builtin))
  : option Builtin :=
  match ms with
  | [] => None
  | (n, b) :: ms' => if String.eqb name n then Some b else member name ms'
  end.

(** [Decode()] and [Encode()]. *)
Definition Decode : Builtin := starlarkDecode.
Definition Encode : Builtin := starlarkEncode.

(** Calling the member of the module that a name is bound to. *)
Definition call (name : string) (args : starlark.Tuple)
           (kwargs : list starlark.Tuple)
  : option (result starlark.Value) :=
  option_map (fun b => CallInternal b args kwargs)
             (member name (Members NewModule)).

(** The encoder as the specification words it: the JSON encoding of
    the value, parsed as YAML, serialized as YAML, each step passing
    its failure on. *)
Definition JSONEncode (v : starlark.Value) : result string :=
  match writeJSON v with
  | inl msg => Err (CodecError msg)
  | inr bytes => Ok bytes
  end.

Definition YAMLParse (text : string) : result GoValue :=
  match yaml_Unmarshal text with
  | inl msg => Err (CodecError msg)
  | inr r => Ok (unmarshalled nil r)
  end.

Definition YAMLSerialize (d : GoValue) : result starlark.Value :=
  match yaml_Marshal d with
  | inl msg => Err (CodecError msg)
  | inr text => Ok (starlark.String text)
  end.

Definition encode_composition (v : starlark.Value)
  : result starlark.Value :=
  json <- JSONEncode v ;;
  d <- YAMLParse json ;;
  YAMLSerialize d.

End EntryPoints.

(** *** The data model of the specification *)

(** The scalar kinds: null, bool, the integers of any width, the floats
    and string. *)
Definition scalar (obj : GoValue) : bool :=
  match obj with
  | nil | GoBool _ | GoInt _ _ | GoUint _ _ | GoFloat _ _ | GoString _ =>
      true
  | GoMap _ | GoSlice _ | GoOther _ _ => false
  end.

(** The values of the data model: scalars, lists of such values, and
    maps whose values are such values.  The keys of a map are left
    free. *)
Fixpoint dynamic (obj : GoValue) : bool :=
  match obj with
  | GoMap m =>
      (fix values (m : list (GoValue * GoValue)) : bool :=
         match m with
         | [] => true
         | (_, v) :: rest => dynamic v && values rest
         end) m
  | GoSlice slice =>
      (fix elements (slice : list GoValue) : bool :=
         match slice with
         | [] => true
         | element :: rest => dynamic element && elements rest
         end) slice
  | GoOther _ _ => false
  | _ => true
  end.

(** The two outcomes of the walk over a value of the data model: a value,
    or the key error of some map. *)
Definition value_or_key_error (r : result starlark.Value) : Prop :=
  (exists x, r = Ok x)
  \/ (exists entries,
        r = Err (NotSupportedKeyType reflect.Map (GoMap entries))).

(** The runtime values both models can hold: scalars, lists of such
    values, and dictionaries of such values under string keys, no two of
    them the same. *)
Inductive supported : starlark.Value -> Prop :=
| supported_None : supported starlark.None
| supported_Bool b : supported (starlark.Bool b)
| supported_Int n : supported (starlark.Int n)
| supported_Float f : supported (starlark.Float f)
| supported_String s : supported (starlark.String s)
| supported_List elems :
    Forall supported elems -> supported (starlark.List elems)
| supported_Dict items :
    Forall (fun kv => exists s, fst kv = starlark.String s) items ->
    NoDup (map fst items) ->
    Forall (fun kv => supported (snd kv)) items ->
    supported (starlark.Dict items).

(** The dynamic value that stands for a runtime value: the same scalar,
    the list of the images, the map of the images in the order of the
    items. *)
Fixpoint dynamic_image (x : starlark.Value) : GoValue :=
  match x with
  | starlark.None => nil
  | starlark.Bool b => GoBool b
  | starlark.Int n => GoInt W64 n
  | starlark.Float f => GoFloat F64 f
  | starlark.String s => GoString s
  | starlark.List elems => GoSlice (map dynamic_image elems)
  | starlark.Dict items =>
      GoMap (map (fun kv => (dynamic_image (fst kv), dynamic_image (snd kv)))
                 items)
  end.

(** *** Stand-ins for the codecs *)

(** Three small functions of the types of the codecs, to run the entry
    points on concrete inputs: each covers a few inputs the way the real
    codec treats them and refuses the rest. *)
Definition sample_Unmarshal (text : string) : string + option GoValue :=
  if String.eqb text "" then inr None
  else if String.eqb text "null" then inr (Some nil)
  else if String.eqb text "7" then inr (Some (GoInt W 7))
  else inl "sample: input not covered".

Definition newline : string := String (ascii_of_nat 10) EmptyString.

Definition sample_Marshal (d : GoValue) : string + string :=
  match d with
  | nil => inr ("null" ++ newline)%string
  | GoInt W 7 => inr ("7" ++ newline)%string
  | _ => inl "sample: value not covered"
  end.

Definition sample_writeJSON (v : starlark.Value) : string + string :=
  match v with
  | starlark.None => inr "null"
  | starlark.Int 7 => inr "7"
  | _ => inl "sample: value not covered"
  end.

(** An argument error: one of the errors of [UnpackPositionalArgs]. *)
Definition argument_error (r : result starlark.Value) : bool :=
  match r with
  | Err (StarlarkError (starlark.UnexpectedKeywordArguments _))
  | Err (StarlarkError (starlark.GotArguments _ _ _ _ _))
  | Err (StarlarkError (starlark.ForParameter _ _ _ _)) => true
  | _ => false
  end.

(** The function an argument error names. *)
Definition error_fnname (err : starlark.error) : option string :=
  match err with
  | starlark.UnexpectedKeywordArguments fnname
  | starlark.GotArguments fnname _ _ _ _
  | starlark.ForParameter fnname _ _ _ => Some fnname
  | starlark.Unhashable _ => None
  end.

Definition panics {A : Type} (r : result A) : bool :=
  match r with
  | Panic => true
  | _ => false
  end.

(** The two errors the walk formats itself: the key error of a map, and
    the error of a value of a kind without a case. *)
Definition own_error (e : error) : Prop :=
  (exists entries, e = NotSupportedKeyType reflect.Map (GoMap entries))
  \/ (exists k printed,
        e = NotSupportedType (Kind_of (GoOther k printed))
                             (GoOther k printed)).

(** *** Shapes of the inputs and of the outputs *)

(** The values the walk converts: scalars, slices of such values, and
    maps whose keys are scalars and whose values are such values. *)
Fixpoint convertible (obj : GoValue) : bool :=
  match obj with
  | GoMap m =>
      (fix entries (m : list (GoValue * GoValue)) : bool :=
         match m with
         | [] => true
         | (k, v) :: rest => scalar k && convertible v && entries rest
         end) m
  | GoSlice slice =>
      (fix elements (slice : list GoValue) : bool :=
         match slice with
         | [] => true
         | element :: rest => convertible element && elements rest
         end) slice
  | GoOther _ _ => false
  | _ => true
  end.

(** A map or a slice of another type stands where the walk goes: it is
    the value, an element of a slice, or a value of a map, at any depth.
    The walk does not go into keys. *)
Fixpoint reaches_typed_container (obj : GoValue) : bool :=
  match obj with
  | GoOther TypedMap _ | GoOther TypedSlice _ => true
  | GoMap m =>
      (fix values (m : list (GoValue * GoValue)) : bool :=
         match m with
         | [] => false
         | (_, v) :: rest => reaches_typed_container v || values rest
         end) m
  | GoSlice slice =>
      (fix elements (slice : list GoValue) : bool :=
         match slice with
         | [] => false
         | element :: rest => reaches_typed_container element || elements rest
         end) slice
  | _ => false
  end.

(** The type of the runtime value that a value of each kind converts
    to, as the cases of the two functions give it; the empty string for a
    kind without a case. *)
Definition converted_type (obj : GoValue) : string :=
  match obj with
  | nil => "NoneType"
  | _ =>
      match Kind_of obj with
      | reflect.Int | reflect.Int8 | reflect.Int16 | reflect.Int32
      | reflect.Int64 => "int"
      | reflect.Uint | reflect.Uint8 | reflect.Uint16 | reflect.Uint32
      | reflect.Uint64 => "int"
      | reflect.Bool => "bool"
      | reflect.Float32 | reflect.Float64 => "float"
      | reflect.String => "string"
      | reflect.Map => "dict"
      | reflect.Slice => "list"
      | _ => ""
      end
  end.

(** The runtime values that have a hash. *)
Definition hashable (x : starlark.Value) : bool :=
  match x with
  | starlark.List _ | starlark.Dict _ => false
  | _ => true
  end.

(** No key of the items equals a key that stands before it. *)
Fixpoint keys_distinct (d : starlark.items) : bool :=
  match d with
  | [] => true
  | (k, _) :: rest =>
      forallb (fun kv => negb (starlark.Equal (fst kv) k)) rest
      && keys_distinct rest
  end.

(** A runtime value all of whose dictionaries, at any depth, have
    hashable keys no two of which are equal. *)
Fixpoint well_formed (x : starlark.Value) : bool :=
  match x with
  | starlark.List elems =>
      (fix all (elems : list starlark.Value) : bool :=
         match elems with
         | [] => true
         | e :: rest => well_formed e && all rest
         end) elems
  | starlark.Dict items =>
      keys_distinct items
      && (fix all (items : starlark.items) : bool :=
            match items with
            | [] => true
            | (k, v) :: rest => hashable k && well_formed v && all rest
            end) items
  | _ => true
  end.

End yamlmodule.


(* ------------------------------------------------------------------ *)
(** * Properties *)

Import yamlmodule.

(** ** Unfolding the walk *)

Lemma toStarlarkValue_GoMap (m : list (GoValue * GoValue)) :
  toStarlarkValue (GoMap m) = rangeMap (GoMap m) m [].
Proof.
  simpl. generalize (@Datatypes.nil (starlark.Value * starlark.Value)).
  generalize m at 2 4. intros entries.
  induction entries as [|[k v] rest IH]; intros ret; simpl; [reflexivity|].
  destruct (toStarlarkScalarValue k) as [keyval|]; [|reflexivity].
  destruct (toStarlarkValue v) as [starval| |]; simpl; try reflexivity.
  destruct (starlark.SetKey ret keyval starval); [reflexivity|apply IH].
Qed.

Lemma toStarlarkValue_GoSlice (slice : list GoValue) :
  toStarlarkValue (GoSlice slice) = rangeSlice slice [].
Proof.
  reflexivity.
Qed.

Lemma toStarlarkValue_scalar (obj : GoValue) (objval : starlark.Value) :
  toStarlarkScalarValue obj = Some objval -> toStarlarkValue obj = Ok objval.
Proof.
  destruct obj; simpl; intros H; inversion H; reflexivity.
Qed.

(** The scalar path accepts exactly the scalar kinds. *)
Lemma toStarlarkScalarValue_scalar (obj : GoValue) :
  scalar obj = false <-> toStarlarkScalarValue obj = None.
Proof.
  destruct obj; simpl; split; intros H; try reflexivity; discriminate.
Qed.

(** ** Scalars *)

(** C1.  Every scalar dynamic value converts to the runtime value of its
    kind with the same underlying value: nil to [None], a bool to the same
    bool, an integer of any signed or unsigned width to the runtime integer
    of the same value (never a float), a float to the same float, a string
    to the same string. *)
Theorem convert_scalar_preserved :
  toStarlarkValue nil = Ok starlark.None
  /\ (forall b, toStarlarkValue (GoBool b) = Ok (starlark.Bool b))
  /\ (forall w i, toStarlarkValue (GoInt w i) = Ok (starlark.Int i))
  /\ (forall w u, toStarlarkValue (GoUint w u) = Ok (starlark.Int u))
  /\ (forall w f, toStarlarkValue (GoFloat w f) = Ok (starlark.Float f))
  /\ (forall s, toStarlarkValue (GoString s) = Ok (starlark.String s)).
Proof.
  repeat split; intros; reflexivity.
Qed.

(** ** Induction over nested values *)

(** The induction principle of [GoValue] that reaches the keys and values
    of a map and the elements of a slice. *)
Lemma GoValue_nested_ind (P : GoValue -> Prop) :
  P nil ->
  (forall w i, P (GoInt w i)) ->
  (forall w u, P (GoUint w u)) ->
  (forall b, P (GoBool b)) ->
  (forall w f, P (GoFloat w f)) ->
  (forall s, P (GoString s)) ->
  (forall m, Forall (fun kv => P (fst kv) /\ P (snd kv)) m -> P (GoMap m)) ->
  (forall slice, Forall P slice -> P (GoSlice slice)) ->
  (forall k printed, P (GoOther k printed)) ->
  forall obj, P obj.
Proof.
  intros Hnil Hint Huint Hbool Hfloat Hstring Hmap Hslice Hother.
  fix IH 1. intros [ | w i | w u | b | w f | s | m | slice | k printed ].
  - exact Hnil.
  - apply Hint.
  - apply Huint.
  - apply Hbool.
  - apply Hfloat.
  - apply Hstring.
  - apply Hmap. induction m as [|[k v] rest IHm]; constructor.
    + split; apply IH.
    + exact IHm.
  - apply Hslice. induction slice as [|element rest IHs]; constructor.
    + apply IH.
    + exact IHs.
  - apply Hother.
Qed.

(** ** Lists *)

Lemma rangeSlice_all_ok (slice : list GoValue) :
  forall (oks starvals : list starlark.Value),
    Forall2 (fun element v => toStarlarkValue element = Ok v) slice oks ->
    rangeSlice slice starvals = Ok (starlark.List (starvals ++ oks)).
Proof.
  induction slice as [|element rest IH]; intros oks starvals Hall;
    inversion Hall as [|? v ? oks' Hv Hrest]; subst; simpl.
  - rewrite app_nil_r. reflexivity.
  - rewrite Hv. simpl. rewrite (IH oks' (starvals ++ [v]) Hrest).
    rewrite <- app_assoc. reflexivity.
Qed.

Lemma rangeSlice_first_failure (pre : list GoValue) :
  forall (oks starvals : list starlark.Value) element post
         (r : result starlark.Value),
    Forall2 (fun element v => toStarlarkValue element = Ok v) pre oks ->
    toStarlarkValue element = r ->
    (forall v, r <> Ok v) ->
    rangeSlice (pre ++ element :: post) starvals = r.
Proof.
  induction pre as [|e rest IH];
    intros oks starvals element post r Hall Hr Hfail;
    inversion Hall as [|? v ? oks' Hv Hrest]; subst; simpl.
  - destruct (toStarlarkValue element) as [v| |]; simpl; try reflexivity.
    exfalso. apply (Hfail v). reflexivity.
  - rewrite Hv. simpl. apply (IH oks'); auto.
Qed.

(** C3.  When the elements of a list convert, one after the other, to the
    values [oks], the list converts to the runtime sequence [oks], of the
    same length and in the same order; and a list that goes on with an
    element that does not convert gives what that first failing element
    gave (its error), whatever follows it. *)
Theorem convert_list_in_order :
  forall (pre : list GoValue) (oks : list starlark.Value),
    Forall2 (fun element v => toStarlarkValue element = Ok v) pre oks ->
    toStarlarkValue (GoSlice pre) = Ok (starlark.List oks)
    /\ List.length oks = List.length pre
    /\ forall element post (r : result starlark.Value),
         toStarlarkValue element = r ->
         (forall v, r <> Ok v) ->
         toStarlarkValue (GoSlice (pre ++ element :: post)) = r.
Proof.
  intros pre oks Hall. repeat split.
  - rewrite toStarlarkValue_GoSlice.
    apply (rangeSlice_all_ok pre oks [] Hall).
  - symmetry. apply (Forall2_length Hall).
  - intros element post r Hr Hfail. rewrite toStarlarkValue_GoSlice.
    apply (rangeSlice_first_failure pre oks [] element post r Hall Hr Hfail).
Qed.

Lemma convert_list_in_order_witness :
  toStarlarkValue
    (GoSlice [GoInt W 7; GoString "world"; GoSlice [GoBool true]])
  = Ok (starlark.List [starlark.Int 7; starlark.String "world";
                       starlark.List [starlark.Bool true]])
  /\ toStarlarkValue
       (GoSlice ([GoInt W 7; GoString "world"; GoSlice [GoBool true]]
                 ++ GoOther OStruct "{}" :: [GoOther OChan "0xc000"]))
     = Err (NotSupportedType reflect.Struct (GoOther OStruct "{}")).
Proof.
  assert (Hall : Forall2 (fun element v => toStarlarkValue element = Ok v)
                   [GoInt W 7; GoString "world"; GoSlice [GoBool true]]
                   [starlark.Int 7; starlark.String "world";
                    starlark.List [starlark.Bool true]]).
  { repeat constructor. }
  destruct (convert_list_in_order _ _ Hall) as [Hok [_ Hfail]].
  split.
  - exact Hok.
  - apply Hfail; [reflexivity|discriminate].
Defined.

(** ** Maps *)

(** A key that took the scalar path is hashable: [SetKey] cannot fail on
    it. *)
Lemma SetKey_scalar (k : GoValue) (keyval : starlark.Value) :
  toStarlarkScalarValue k = Some keyval ->
  forall ret starval,
    starlark.SetKey ret keyval starval
    = inr (starlark.insert ret keyval starval).
Proof.
  destruct k; simpl; intros H; inversion H; reflexivity.
Qed.

(** What the loop returns on success is a dictionary. *)
Lemma rangeMap_Ok_Dict (obj : GoValue) (m : list (GoValue * GoValue)) :
  forall ret x, rangeMap obj m ret = Ok x -> exists d, x = starlark.Dict d.
Proof.
  induction m as [|[k v] rest IH]; intros ret x; simpl.
  - intros H. inversion H. eexists. reflexivity.
  - destruct (toStarlarkScalarValue k) as [keyval|]; [|discriminate].
    destruct (toStarlarkValue v) as [starval| |]; simpl; try discriminate.
    destruct (starlark.SetKey ret keyval starval) as [err|ret'];
      [discriminate|]. apply IH.
Qed.

(** A successful loop does not depend on the map named in its errors. *)
Lemma rangeMap_Ok_any_obj (obj obj' : GoValue) (m : list (GoValue * GoValue)) :
  forall ret x, rangeMap obj m ret = Ok x -> rangeMap obj' m ret = Ok x.
Proof.
  induction m as [|[k v] rest IH]; intros ret x; simpl; [auto|].
  destruct (toStarlarkScalarValue k) as [keyval|]; [|discriminate].
  destruct (toStarlarkValue v) as [starval| |]; simpl; try discriminate.
  destruct (starlark.SetKey ret keyval starval) as [err|ret'];
    [discriminate|]. apply IH.
Qed.

(** The loop over [pre ++ post] goes on over [post] with the dictionary
    the loop over [pre] has built. *)
Lemma rangeMap_app (obj : GoValue) (pre post : list (GoValue * GoValue)) :
  forall ret d,
    rangeMap obj pre ret = Ok (starlark.Dict d) ->
    rangeMap obj (pre ++ post) ret = rangeMap obj post d.
Proof.
  induction pre as [|[k v] rest IH]; intros ret d; simpl.
  - intros H. inversion H. reflexivity.
  - destruct (toStarlarkScalarValue k) as [keyval|]; [|discriminate].
    destruct (toStarlarkValue v) as [starval| |]; simpl; try discriminate.
    destruct (starlark.SetKey ret keyval starval) as [err|ret'];
      [discriminate|]. apply IH.
Qed.

(** A map with a key off the scalar path never converts. *)
Lemma rangeMap_nonscalar_key_fails (obj : GoValue)
      (m : list (GoValue * GoValue)) (k v : GoValue) :
  In (k, v) m -> scalar k = false ->
  forall ret x, rangeMap obj m ret <> Ok x.
Proof.
  intros Hin Hk. apply toStarlarkScalarValue_scalar in Hk.
  induction m as [|[k' v'] rest IH]; [contradiction|].
  intros ret x. simpl. destruct Hin as [Heq|Hin].
  - inversion Heq; subst. rewrite Hk. discriminate.
  - destruct (toStarlarkScalarValue k') as [keyval|]; [|discriminate].
    destruct (toStarlarkValue v') as [starval| |]; simpl; try discriminate.
    destruct (starlark.SetKey ret keyval starval) as [err|ret'];
      [discriminate|]. apply IH. exact Hin.
Qed.

(** What [dynamic] says of the values of a map and the elements of a
    slice. *)
Lemma dynamic_GoMap (m : list (GoValue * GoValue)) :
  dynamic (GoMap m) = true <-> Forall (fun kv => dynamic (snd kv) = true) m.
Proof.
  simpl. induction m as [|[k v] rest IH]; split; intros H.
  - constructor.
  - reflexivity.
  - apply andb_true_iff in H. destruct H as [Hv Hrest].
    constructor; [exact Hv|]. apply IH. exact Hrest.
  - inversion H as [|? ? Hv Hrest]; subst. apply andb_true_iff.
    split; [exact Hv|]. apply IH. exact Hrest.
Qed.

Lemma dynamic_GoSlice (slice : list GoValue) :
  dynamic (GoSlice slice) = true <-> Forall (fun e => dynamic e = true) slice.
Proof.
  simpl. induction slice as [|element rest IH]; split; intros H.
  - constructor.
  - reflexivity.
  - apply andb_true_iff in H. destruct H as [He Hrest].
    constructor; [exact He|]. apply IH. exact Hrest.
  - inversion H as [|? ? He Hrest]; subst. apply andb_true_iff.
    split; [exact He|]. apply IH. exact Hrest.
Qed.

Lemma rangeSlice_dynamic (slice : list GoValue) :
  Forall (fun e => dynamic e = true -> value_or_key_error (toStarlarkValue e))
         slice ->
  Forall (fun e => dynamic e = true) slice ->
  forall starvals, value_or_key_error (rangeSlice slice starvals).
Proof.
  induction slice as [|element rest IH]; intros HP Hdyn starvals; simpl.
  - left. eexists. reflexivity.
  - inversion HP as [|? ? He HPrest]; inversion Hdyn as [|? ? Hd Hdrest]; subst.
    destruct (He Hd) as [[x Hx]|[entries Hx]]; rewrite Hx; simpl.
    + apply IH; assumption.
    + right. exists entries. reflexivity.
Qed.

Lemma rangeMap_dynamic (entries m : list (GoValue * GoValue)) :
  Forall (fun kv => dynamic (snd kv) = true ->
                    value_or_key_error (toStarlarkValue (snd kv))) m ->
  Forall (fun kv => dynamic (snd kv) = true) m ->
  forall ret, value_or_key_error (rangeMap (GoMap entries) m ret).
Proof.
  induction m as [|[k v] rest IH]; intros HP Hdyn ret; simpl.
  - left. eexists. reflexivity.
  - inversion HP as [|? ? Hv HPrest]; inversion Hdyn as [|? ? Hd Hdrest]; subst.
    simpl in Hv, Hd.
    destruct (toStarlarkScalarValue k) as [keyval|] eqn:Hk.
    + destruct (Hv Hd) as [[x Hx]|[entries' Hx]]; rewrite Hx; simpl.
      * rewrite (SetKey_scalar k keyval Hk). apply IH; assumption.
      * right. exists entries'. reflexivity.
    + right. exists entries. reflexivity.
Qed.

Lemma toStarlarkValue_dynamic (obj : GoValue) :
  dynamic obj = true -> value_or_key_error (toStarlarkValue obj).
Proof.
  induction obj as [ | w i | w u | b | w f | s | m IHm | slice IHs | k printed ]
    using GoValue_nested_ind; intros Hdyn;
    try (left; eexists; reflexivity).
  - rewrite toStarlarkValue_GoMap. apply rangeMap_dynamic.
    + eapply Forall_impl; [|exact IHm]. intros kv [_ Hv]. exact Hv.
    + apply dynamic_GoMap. exact Hdyn.
  - rewrite toStarlarkValue_GoSlice. apply rangeSlice_dynamic.
    + exact IHs.
    + apply dynamic_GoSlice. exact Hdyn.
  - discriminate.
Qed.

(** C2.  A map that holds an entry whose key is not a scalar never
    converts: no mapping, partial or not, is returned.  When the values of
    the map are values of the data model, the failure is the error "is not
    a supported key type" of a map. *)
Theorem nonscalar_key_fails_conversion :
  forall (m : list (GoValue * GoValue)) (k v : GoValue),
    In (k, v) m ->
    scalar k = false ->
    (forall x, toStarlarkValue (GoMap m) <> Ok x)
    /\ (dynamic (GoMap m) = true ->
        exists entries,
          toStarlarkValue (GoMap m)
          = Err (NotSupportedKeyType reflect.Map (GoMap entries))).
Proof.
  intros m k v Hin Hk. split.
  - intros x. rewrite toStarlarkValue_GoMap.
    apply (rangeMap_nonscalar_key_fails (GoMap m) m k v Hin Hk).
  - intros Hdyn.
    destruct (toStarlarkValue_dynamic (GoMap m) Hdyn) as [[x Hx]|Herr].
    + exfalso. revert Hx. rewrite toStarlarkValue_GoMap.
      apply (rangeMap_nonscalar_key_fails (GoMap m) m k v Hin Hk).
    + exact Herr.
Qed.

Lemma nonscalar_key_fails_conversion_witness :
  exists entries,
    toStarlarkValue
      (GoMap [(GoString "a", GoSlice [GoInt W 1]);
              (GoSlice [GoString "b"], GoString "x")])
    = Err (NotSupportedKeyType reflect.Map (GoMap entries)).
Proof.
  apply (nonscalar_key_fails_conversion
           [(GoString "a", GoSlice [GoInt W 1]);
            (GoSlice [GoString "b"], GoString "x")]
           (GoSlice [GoString "b"]) (GoString "x")).
  - right. left. reflexivity.
  - reflexivity.
  - reflexivity.
Defined.

(** No map is a key of itself. *)
Lemma key_not_its_map (k : GoValue) :
  forall pre v post, GoMap (pre ++ (k, v) :: post) <> k.
Proof.
  induction k as [ | w i | w u | b | w f | s | m IHm | slice IHs | o printed ]
    using GoValue_nested_ind; intros pre v post; try discriminate.
  intros Heq. injection Heq as Hm.
  assert (Hin : In (GoMap m, v) m).
  { rewrite <- Hm at 2. apply in_or_app. right. left. reflexivity. }
  rewrite Forall_forall in IHm. destruct (IHm _ Hin) as [Hkey _].
  simpl in Hkey. apply (Hkey pre v post). rewrite Hm. reflexivity.
Qed.

(** C10.  The error raised at a key that is not a scalar carries the kind
    and the value of the map the key belongs to, not those of the key: the
    kind printed is "map", the value printed is the whole map, and the map
    is not the key. *)
Theorem key_error_reports_containing_map :
  forall (pre post : list (GoValue * GoValue)) (k v : GoValue)
         (x : starlark.Value),
    toStarlarkValue (GoMap pre) = Ok x ->
    scalar k = false ->
    toStarlarkValue (GoMap (pre ++ (k, v) :: post))
    = Err (NotSupportedKeyType reflect.Map (GoMap (pre ++ (k, v) :: post)))
    /\ GoMap (pre ++ (k, v) :: post) <> k
    /\ forall fmt_v,
         Error fmt_v
               (NotSupportedKeyType reflect.Map
                                    (GoMap (pre ++ (k, v) :: post)))
         = Some ("map (" ++ fmt_v (GoMap (pre ++ (k, v) :: post))
                 ++ ") is not a supported key type")%string.
Proof.
  intros pre post k v x Hpre Hk. repeat split.
  - rewrite toStarlarkValue_GoMap in Hpre |- *.
    destruct (rangeMap_Ok_Dict _ _ _ _ Hpre) as [d Hd]. subst x.
    apply (rangeMap_Ok_any_obj _ (GoMap (pre ++ (k, v) :: post))) in Hpre.
    rewrite (rangeMap_app _ pre ((k, v) :: post) [] d Hpre). simpl.
    apply toStarlarkScalarValue_scalar in Hk. rewrite Hk. reflexivity.
  - apply key_not_its_map.
Qed.

Lemma key_error_reports_containing_map_witness :
  toStarlarkValue
    (GoMap ([(GoString "a", GoInt W 1)]
            ++ (GoSlice [GoString "b"], GoString "x")
            :: [(GoString "c", GoOther OStruct "{}")]))
  = Err (NotSupportedKeyType
           reflect.Map
           (GoMap ([(GoString "a", GoInt W 1)]
                   ++ (GoSlice [GoString "b"], GoString "x")
                   :: [(GoString "c", GoOther OStruct "{}")]))).
Proof.
  apply (key_error_reports_containing_map
           [(GoString "a", GoInt W 1)]
           [(GoString "c", GoOther OStruct "{}")]
           (GoSlice [GoString "b"]) (GoString "x")
           (starlark.Dict [(starlark.String "a", starlark.Int 1)])).
  - reflexivity.
  - reflexivity.
Defined.

(** ** Keys that meet in the dictionary *)

(** A key equal to one the dictionary holds is found by [Get]. *)
Lemma Get_equal_key (d : starlark.items) (k key1 : starlark.Value) :
  In key1 (map fst d) -> starlark.Equal k key1 = true ->
  starlark.Get d k <> None.
Proof.
  induction d as [|[k' v'] rest IH]; simpl; [contradiction|].
  intros [Heq|Hin] Hequal.
  - subst k'. rewrite Hequal. discriminate.
  - destruct (starlark.Equal k k'); [discriminate|]. apply IH; assumption.
Qed.

(** Inserting under a key the dictionary finds changes the value held
    there and nothing else: the keys stay as they are, in their order. *)
Lemma insert_present (d : starlark.items) (k v : starlark.Value) :
  starlark.Get d k <> None ->
  map fst (starlark.insert d k v) = map fst d
  /\ starlark.Get (starlark.insert d k v) k = Some v.
Proof.
  induction d as [|[k' v'] rest IH]; simpl; [congruence|].
  destruct (starlark.Equal k k') eqn:Hequal; intros Hget; simpl.
  - rewrite Hequal. split; reflexivity.
  - rewrite Hequal. destruct (IH Hget) as [Hkeys Hval].
    rewrite Hkeys. split; [reflexivity|exact Hval].
Qed.

(** Inserting under a key the dictionary does not find adds the entry
    last. *)
Lemma insert_absent (d : starlark.items) (k v : starlark.Value) :
  starlark.Get d k = None -> starlark.insert d k v = d ++ [(k, v)].
Proof.
  induction d as [|[k' v'] rest IH]; simpl; [reflexivity|].
  destruct (starlark.Equal k k'); [discriminate|].
  intros Hget. rewrite (IH Hget). reflexivity.
Qed.

(** C9.  When a key converts to a runtime key equal to one that an earlier
    entry has put in the dictionary, the conversion raises no error: the
    value of the later entry replaces the value held under that key, and
    the dictionary keeps the keys it had, so the key has a single
    entry. *)
Theorem equal_runtime_keys_overwrite :
  forall (pre : list (GoValue * GoValue)) (k v : GoValue)
         (d : starlark.items) (key1 keyval starval : starlark.Value),
    toStarlarkValue (GoMap pre) = Ok (starlark.Dict d) ->
    In key1 (map fst d) ->
    toStarlarkScalarValue k = Some keyval ->
    starlark.Equal keyval key1 = true ->
    toStarlarkValue v = Ok starval ->
    toStarlarkValue (GoMap (pre ++ [(k, v)]))
    = Ok (starlark.Dict (starlark.insert d keyval starval))
    /\ map fst (starlark.insert d keyval starval) = map fst d
    /\ List.length (starlark.insert d keyval starval) = List.length d
    /\ starlark.Get (starlark.insert d keyval starval) keyval = Some starval.
Proof.
  intros pre k v d key1 keyval starval Hpre Hin Hk Hequal Hv.
  destruct (insert_present d keyval starval
              (Get_equal_key d keyval key1 Hin Hequal)) as [Hkeys Hget].
  repeat split.
  - rewrite toStarlarkValue_GoMap in Hpre |- *.
    apply (rangeMap_Ok_any_obj _ (GoMap (pre ++ [(k, v)]))) in Hpre.
    rewrite (rangeMap_app _ pre [(k, v)] [] d Hpre). simpl.
    rewrite Hk, Hv. simpl. rewrite (SetKey_scalar k keyval Hk). reflexivity.
  - exact Hkeys.
  - rewrite <- (length_map fst), Hkeys. apply length_map.
  - exact Hget.
Qed.

Lemma equal_runtime_keys_overwrite_witness :
  toStarlarkValue
    (GoMap ([(GoInt W 1, GoString "signed")]
            ++ [(GoUint W 1, GoString "unsigned")]))
  = Ok (starlark.Dict [(starlark.Int 1, starlark.String "unsigned")]).
Proof.
  apply (equal_runtime_keys_overwrite
           [(GoInt W 1, GoString "signed")]
           (GoUint W 1) (GoString "unsigned")
           [(starlark.Int 1, starlark.String "signed")]
           (starlark.Int 1) (starlark.Int 1) (starlark.String "unsigned")).
  - reflexivity.
  - left. reflexivity.
  - reflexivity.
  - reflexivity.
  - reflexivity.
Defined.

(** ** The entry points *)

(** The walk returns none of the errors of the argument unpacking. *)
Lemma rangeSlice_not_argument_error (slice : list GoValue) :
  Forall (fun e => argument_error (toStarlarkValue e) = false) slice ->
  forall starvals, argument_error (rangeSlice slice starvals) = false.
Proof.
  induction slice as [|element rest IH]; intros HP starvals; simpl;
    [reflexivity|].
  inversion HP as [|? ? He Hrest]; subst.
  destruct (toStarlarkValue element) as [x|err|]; simpl; auto.
Qed.

Lemma rangeMap_not_argument_error (obj : GoValue)
      (m : list (GoValue * GoValue)) :
  Forall (fun kv => argument_error (toStarlarkValue (snd kv)) = false) m ->
  forall ret, argument_error (rangeMap obj m ret) = false.
Proof.
  induction m as [|[k v] rest IH]; intros HP ret; simpl; [reflexivity|].
  inversion HP as [|? ? Hv Hrest]; subst. simpl in Hv.
  destruct (toStarlarkScalarValue k) as [keyval|] eqn:Hk; [|reflexivity].
  destruct (toStarlarkValue v) as [x|err|]; simpl; auto.
  rewrite (SetKey_scalar k keyval Hk). auto.
Qed.

Lemma toStarlarkValue_not_argument_error (obj : GoValue) :
  argument_error (toStarlarkValue obj) = false.
Proof.
  induction obj as [ | w i | w u | b | w f | s | m IHm | slice IHs | k printed ]
    using GoValue_nested_ind; try reflexivity.
  - rewrite toStarlarkValue_GoMap. apply rangeMap_not_argument_error.
    eapply Forall_impl; [|exact IHm]. intros kv [_ Hv]. exact Hv.
  - rewrite toStarlarkValue_GoSlice. apply rangeSlice_not_argument_error.
    exact IHs.
  - destruct k; reflexivity.
Qed.

Section EntryPointProperties.

Variable yaml_Unmarshal : string -> string + option GoValue.
Variable yaml_Marshal : GoValue -> string + string.
Variable writeJSON : starlark.Value -> string + string.

Local Abbreviation decode := (yamlDecode yaml_Unmarshal).
Local Abbreviation encode := (yamlEncode yaml_Unmarshal yaml_Marshal writeJSON).
Local Abbreviation composition :=
  (encode_composition yaml_Unmarshal yaml_Marshal writeJSON).

(** With one positional argument, a string, [yamlDecode] parses it and
    converts what the parser left. *)
Lemma yamlDecode_one_string (fn_Name blob : string)
      (kwargs : list starlark.Tuple) :
  decode fn_Name [starlark.String blob] kwargs
  = match yaml_Unmarshal blob with
    | inl msg => Err (CodecError msg)
    | inr r => toStarlarkValue (unmarshalled nil r)
    end.
Proof. reflexivity. Qed.

(** With one positional argument, [yamlEncode] runs the three steps. *)
Lemma yamlEncode_one_value (fn_Name : string) (v : starlark.Value)
      (kwargs : list starlark.Tuple) :
  encode fn_Name [v] kwargs = composition v.
Proof.
  unfold yamlEncode, encode_composition, JSONEncode, YAMLParse,
    YAMLSerialize. simpl.
  destruct (writeJSON v) as [msg|json]; simpl; [reflexivity|].
  destruct (yaml_Unmarshal json) as [msg|r]; reflexivity.
Qed.

(** C4.  On a runtime value, the encoder is the composition the
    specification names: the JSON encoding, parsed as YAML, serialized as
    YAML.  A step that fails ends the call with the error of that step, and
    the text is returned only when the three steps succeed. *)
Theorem yamlEncode_is_composition :
  forall (fn_Name : string) (v : starlark.Value)
         (kwargs : list starlark.Tuple),
    encode fn_Name [v] kwargs = composition v
    /\ (forall msg,
          writeJSON v = inl msg ->
          encode fn_Name [v] kwargs = Err (CodecError msg))
    /\ (forall json msg,
          writeJSON v = inr json ->
          yaml_Unmarshal json = inl msg ->
          encode fn_Name [v] kwargs = Err (CodecError msg))
    /\ (forall json r msg,
          writeJSON v = inr json ->
          yaml_Unmarshal json = inr r ->
          yaml_Marshal (unmarshalled nil r) = inl msg ->
          encode fn_Name [v] kwargs = Err (CodecError msg))
    /\ (forall json r text,
          writeJSON v = inr json ->
          yaml_Unmarshal json = inr r ->
          yaml_Marshal (unmarshalled nil r) = inr text ->
          encode fn_Name [v] kwargs = Ok (starlark.String text)).
Proof.
  intros fn_Name v kwargs. split; [apply yamlEncode_one_value|].
  unfold yamlEncode. simpl.
  repeat split.
  - intros msg Hjson. rewrite Hjson. reflexivity.
  - intros json msg Hjson Hparse. rewrite Hjson, Hparse. reflexivity.
  - intros json r msg Hjson Hparse Hyaml.
    rewrite Hjson, Hparse, Hyaml. reflexivity.
  - intros json r text Hjson Hparse Hyaml.
    rewrite Hjson, Hparse, Hyaml. reflexivity.
Qed.

(** The arguments are unpacked against an empty list of keyword
    arguments: the result of a call does not depend on the keyword
    arguments it was given. *)
Lemma keyword_arguments_not_read (fn_Name : string) (args : starlark.Tuple)
      (kwargs : list starlark.Tuple) :
  decode fn_Name args kwargs = decode fn_Name args []
  /\ encode fn_Name args kwargs = encode fn_Name args [].
Proof. split; reflexivity. Qed.

(** A call with no positional argument, or with more than one, ends with
    an argument error, whatever its keyword arguments. *)
Lemma positional_count_checked (fn_Name : string) (args : starlark.Tuple)
      (kwargs : list starlark.Tuple) :
  List.length args <> 1%nat ->
  argument_error (decode fn_Name args kwargs) = true
  /\ argument_error (encode fn_Name args kwargs) = true.
Proof.
  intros Hlen. destruct args as [|a [|b rest]]; simpl in Hlen.
  - split; reflexivity.
  - congruence.
  - split; reflexivity.
Qed.

(** C5, on the code.  A call that supplies one positional argument and a
    keyword argument is not refused: [yaml.decode("7", strict=True)] parses
    and converts its text, [yaml.encode(7, strict=True)] runs the three
    steps of the encoder, and neither ends with an argument error. *)
Theorem keyword_argument_not_refused :
  (decode "yaml.decode" [starlark.String "7"]
          [[starlark.String "strict"; starlark.Bool true]]
   = match yaml_Unmarshal "7" with
     | inl msg => Err (CodecError msg)
     | inr r => toStarlarkValue (unmarshalled nil r)
     end)
  /\ argument_error
       (decode "yaml.decode" [starlark.String "7"]
               [[starlark.String "strict"; starlark.Bool true]]) = false
  /\ (encode "yaml.encode" [starlark.Int 7]
             [[starlark.String "strict"; starlark.Bool true]]
      = composition (starlark.Int 7))
  /\ argument_error
       (encode "yaml.encode" [starlark.Int 7]
               [[starlark.String "strict"; starlark.Bool true]]) = false.
Proof.
  repeat split.
  - rewrite yamlDecode_one_string.
    destruct (yaml_Unmarshal "7") as [msg|r]; [reflexivity|].
    apply toStarlarkValue_not_argument_error.
  - apply yamlEncode_one_value.
  - rewrite yamlEncode_one_value.
    unfold encode_composition, JSONEncode, YAMLParse, YAMLSerialize.
    destruct (writeJSON (starlark.Int 7)) as [msg|json]; [reflexivity|].
    simpl. destruct (yaml_Unmarshal json) as [msg|r]; [reflexivity|].
    simpl. destruct (yaml_Marshal (unmarshalled nil r)); reflexivity.
Qed.

(** C7.  The module binds [marshal] to the builtin it binds [encode] to,
    and [unmarshal] to the builtin it binds [decode] to; a call through an
    alias gives what the call through the name gives, value or error. *)
Theorem aliases_are_the_same_callables :
  member "encode" (Members (NewModule yaml_Unmarshal yaml_Marshal writeJSON))
  = Some (starlarkEncode yaml_Unmarshal yaml_Marshal writeJSON)
  /\ member "marshal"
            (Members (NewModule yaml_Unmarshal yaml_Marshal writeJSON))
     = Some (starlarkEncode yaml_Unmarshal yaml_Marshal writeJSON)
  /\ member "decode"
            (Members (NewModule yaml_Unmarshal yaml_Marshal writeJSON))
     = Some (starlarkDecode yaml_Unmarshal)
  /\ member "unmarshal"
            (Members (NewModule yaml_Unmarshal yaml_Marshal writeJSON))
     = Some (starlarkDecode yaml_Unmarshal)
  /\ (forall args kwargs,
        call yaml_Unmarshal yaml_Marshal writeJSON "marshal" args kwargs
        = call yaml_Unmarshal yaml_Marshal writeJSON "encode" args kwargs)
  /\ (forall args kwargs,
        call yaml_Unmarshal yaml_Marshal writeJSON "unmarshal" args kwargs
        = call yaml_Unmarshal yaml_Marshal writeJSON "decode" args kwargs).
Proof.
  repeat split.
Qed.

(** C8.  When the parser finds no document in the text, or finds the null
    document, the decoder succeeds and returns [None]. *)
Theorem decode_no_document_is_None :
  forall (fn_Name blob : string) (kwargs : list starlark.Tuple),
    yaml_Unmarshal blob = inr None \/ yaml_Unmarshal blob = inr (Some nil) ->
    decode fn_Name [starlark.String blob] kwargs = Ok starlark.None.
Proof.
  intros fn_Name blob kwargs Hparse. rewrite yamlDecode_one_string.
  destruct Hparse as [H|H]; rewrite H; reflexivity.
Qed.

End EntryPointProperties.

(** ** The entry points on concrete inputs *)

Lemma yamlEncode_is_composition_witness :
  yamlEncode sample_Unmarshal sample_Marshal sample_writeJSON
             "yaml.encode" [starlark.Int 7] []
  = Ok (starlark.String ("7" ++ newline))
  /\ yamlEncode sample_Unmarshal sample_Marshal sample_writeJSON
                "yaml.encode" [starlark.Bool true] []
     = Err (CodecError "sample: value not covered").
Proof.
  destruct (yamlEncode_is_composition
              sample_Unmarshal sample_Marshal sample_writeJSON
              "yaml.encode" (starlark.Int 7) [])
    as [_ [_ [_ [_ Hok]]]].
  destruct (yamlEncode_is_composition
              sample_Unmarshal sample_Marshal sample_writeJSON
              "yaml.encode" (starlark.Bool true) [])
    as [_ [Hjson _]].
  split.
  - apply (Hok "7" (Some (GoInt W 7))); reflexivity.
  - apply Hjson. reflexivity.
Defined.

Lemma decode_no_document_is_None_witness :
  yamlDecode sample_Unmarshal "yaml.decode" [starlark.String ""] []
  = Ok starlark.None
  /\ yamlDecode sample_Unmarshal "yaml.decode" [starlark.String "null"] []
     = Ok starlark.None.
Proof.
  split.
  - apply decode_no_document_is_None. left. reflexivity.
  - apply decode_no_document_is_None. right. reflexivity.
Defined.

(** ** Further properties of the decoder *)

(** The induction principle of [starlark.Value] that reaches the elements
    of a list and the items of a dictionary. *)
Lemma Value_nested_ind (P : starlark.Value -> Prop) :
  P starlark.None ->
  (forall b, P (starlark.Bool b)) ->
  (forall n, P (starlark.Int n)) ->
  (forall f, P (starlark.Float f)) ->
  (forall s, P (starlark.String s)) ->
  (forall elems, Forall P elems -> P (starlark.List elems)) ->
  (forall items, Forall (fun kv => P (fst kv) /\ P (snd kv)) items ->
                 P (starlark.Dict items)) ->
  forall x, P x.
Proof.
  intros HNone HBool HInt HFloat HString HList HDict.
  fix IH 1. intros [ | b | n | f | s | elems | items ].
  - exact HNone.
  - apply HBool.
  - apply HInt.
  - apply HFloat.
  - apply HString.
  - apply HList. induction elems as [|e rest IHe]; constructor.
    + apply IH.
    + exact IHe.
  - apply HDict. induction items as [|[k v] rest IHi]; constructor.
    + split; apply IH.
    + exact IHi.
Qed.

(** A string that is not among the string keys of a dictionary is not
    found in it. *)
Lemma Get_absent_string (d : starlark.items) (s : string) :
  Forall (fun kv => exists s', fst kv = starlark.String s') d ->
  ~ In (starlark.String s) (map fst d) ->
  starlark.Get d (starlark.String s) = None.
Proof.
  induction d as [|[k v] rest IH]; intros Hkeys Hnotin; simpl; [reflexivity|].
  inversion Hkeys as [|? ? [s' Hk] Hrest]; subst. simpl in Hk. subst k.
  simpl. destruct (String.eqb s s') eqn:Heq.
  - apply String.eqb_eq in Heq. subst s'. exfalso. apply Hnotin. left.
    reflexivity.
  - apply IH; [exact Hrest|]. intros Hin. apply Hnotin. right. exact Hin.
Qed.

Lemma rangeMap_image (obj : GoValue) (items : starlark.items) :
  forall ret : starlark.items,
    Forall (fun kv => exists s, fst kv = starlark.String s) (ret ++ items) ->
    NoDup (map fst (ret ++ items)) ->
    Forall (fun kv => toStarlarkValue (dynamic_image (snd kv)) = Ok (snd kv))
           items ->
    rangeMap obj
             (map (fun kv => (dynamic_image (fst kv), dynamic_image (snd kv)))
                  items) ret
    = Ok (starlark.Dict (ret ++ items)).
Proof.
  induction items as [|[k v] rest IH]; intros ret Hkeys Hnodup Hvals; simpl.
  - rewrite app_nil_r. reflexivity.
  - inversion Hvals as [|? ? Hv Hrest]; subst. simpl in Hv.
    assert (Hk : exists s, k = starlark.String s).
    { rewrite Forall_forall in Hkeys.
      apply (Hkeys (k, v)). apply in_or_app. right. left. reflexivity. }
    destruct Hk as [s Hk]. subst k. simpl. rewrite Hv. simpl.
    assert (Hret : Forall (fun kv => exists s', fst kv = starlark.String s')
                          ret).
    { apply Forall_app in Hkeys. apply Hkeys. }
    assert (Hnotin : ~ In (starlark.String s) (map fst ret)).
    { rewrite map_app in Hnodup. simpl in Hnodup.
      apply NoDup_remove_2 in Hnodup. intros Hin. apply Hnodup.
      apply in_or_app. left. exact Hin. }
    rewrite (insert_absent ret _ v (Get_absent_string ret s Hret Hnotin)).
    replace (ret ++ (starlark.String s, v) :: rest)
      with ((ret ++ [(starlark.String s, v)]) ++ rest)
      by (rewrite <- app_assoc; reflexivity).
    apply IH.
    + rewrite <- app_assoc. exact Hkeys.
    + rewrite <- app_assoc. exact Hnodup.
    + exact Hrest.
Qed.

(** Structure is preserved: the decoder, run on the dynamic value that
    stands for a runtime value of the supported subset, returns that
    runtime value, the lists in their order and every dictionary with its
    key and value pairs. *)
Theorem decoder_inverts_dynamic_image :
  forall x : starlark.Value,
    supported x -> toStarlarkValue (dynamic_image x) = Ok x.
Proof.
  induction x as [ | b | n | f | s | elems IHe | items IHi ]
    using Value_nested_ind; intros Hsup; try reflexivity.
  - inversion Hsup as [ | | | | | ? Helems | ]; subst.
    simpl dynamic_image. rewrite toStarlarkValue_GoSlice.
    apply (rangeSlice_all_ok _ elems []).
    clear Hsup. induction elems as [|e rest IHrest]; simpl; constructor.
    + inversion IHe; inversion Helems; subst. auto.
    + inversion IHe; inversion Helems; subst. auto.
  - inversion Hsup as [ | | | | | | ? Hkeys Hnodup Hvals ]; subst.
    simpl dynamic_image. rewrite toStarlarkValue_GoMap.
    apply (rangeMap_image _ items []); simpl; try assumption.
    clear Hsup Hkeys Hnodup.
    induction items as [|[k v] rest IHrest]; constructor.
    + inversion IHi as [|? ? [_ Hv] ?]; inversion Hvals; subst. auto.
    + inversion IHi; inversion Hvals; subst. auto.
Qed.

Lemma decoder_inverts_dynamic_image_witness :
  toStarlarkValue
    (dynamic_image
       (starlark.Dict
          [(starlark.String "hello", starlark.List [starlark.String "world"]);
           (starlark.String "n", starlark.Int 7)]))
  = Ok (starlark.Dict
          [(starlark.String "hello", starlark.List [starlark.String "world"]);
           (starlark.String "n", starlark.Int 7)]).
Proof.
  apply decoder_inverts_dynamic_image.
  apply supported_Dict.
  - repeat constructor; eexists; reflexivity.
  - repeat constructor; simpl; intuition discriminate.
  - repeat constructor.
Defined.

(** A value of a kind the walk has no case for ends it with the error "is
    not a supported type", which carries the kind and the value. *)
Theorem unsupported_kind_is_an_error :
  forall (k : OtherKind) (printed : string),
    k <> TypedMap -> k <> TypedSlice ->
    toStarlarkValue (GoOther k printed)
    = Err (NotSupportedType (Kind_of (GoOther k printed))
                            (GoOther k printed)).
Proof.
  intros k printed Hmap Hslice. destruct k; try reflexivity; congruence.
Qed.

Lemma unsupported_kind_is_an_error_witness :
  toStarlarkValue (GoOther OStruct "{}")
  = Err (NotSupportedType reflect.Struct (GoOther OStruct "{}")).
Proof.
  apply (unsupported_kind_is_an_error OStruct "{}"); discriminate.
Defined.

(** A map whose keys are all scalars and whose values all convert is
    converted to a dictionary: inserting its entries raises no error, and
    the dictionary has at most one item for each entry. *)
Lemma rangeMap_scalar_keys (obj : GoValue) (m : list (GoValue * GoValue)) :
  Forall (fun kv => scalar (fst kv) = true
                    /\ exists x, toStarlarkValue (snd kv) = Ok x) m ->
  forall ret,
  exists d, rangeMap obj m ret = Ok (starlark.Dict d)
            /\ (List.length d <= List.length ret + List.length m)%nat.
Proof.
  induction m as [|[k v] rest IH]; intros Hm ret; simpl.
  - exists ret. split; [reflexivity|lia].
  - inversion Hm as [|? ? [Hk [x Hv]] Hrest]; subst. simpl in Hk, Hv.
    destruct (toStarlarkScalarValue k) as [keyval|] eqn:Hkey.
    + rewrite Hv. simpl. rewrite (SetKey_scalar k keyval Hkey).
      destruct (IH Hrest (starlark.insert ret keyval x)) as [d [Hd Hlen]].
      exists d. split; [exact Hd|].
      assert (Hins : (List.length (starlark.insert ret keyval x)
                      <= S (List.length ret))%nat).
      { clear. induction ret as [|[k' v'] ret' IHr]; simpl; [lia|].
        destruct (starlark.Equal keyval k'); simpl; lia. }
      lia.
    + apply toStarlarkScalarValue_scalar in Hkey. congruence.
Qed.

Theorem map_of_scalar_keys_converts :
  forall m : list (GoValue * GoValue),
    Forall (fun kv => scalar (fst kv) = true
                      /\ exists x, toStarlarkValue (snd kv) = Ok x) m ->
    exists d, toStarlarkValue (GoMap m) = Ok (starlark.Dict d)
              /\ (List.length d <= List.length m)%nat.
Proof.
  intros m Hm. rewrite toStarlarkValue_GoMap.
  destruct (rangeMap_scalar_keys (GoMap m) m Hm []) as [d [Hd Hlen]].
  exists d. split; [exact Hd|exact Hlen].
Qed.

Lemma map_of_scalar_keys_converts_witness :
  exists d,
    toStarlarkValue
      (GoMap [(GoString "a", GoInt W 1);
              (GoInt W 2, GoFloat F64 (S754_zero false));
              (GoBool true, nil)])
    = Ok (starlark.Dict d)
    /\ (List.length d <= 3)%nat.
Proof.
  apply (map_of_scalar_keys_converts
           [(GoString "a", GoInt W 1);
            (GoInt W 2, GoFloat F64 (S754_zero false));
            (GoBool true, nil)]).
  repeat constructor; eexists; reflexivity.
Defined.

Lemma positional_count_checked_witness :
  argument_error
    (yamlDecode sample_Unmarshal "yaml.decode" [] []) = true
  /\ argument_error
       (yamlEncode sample_Unmarshal sample_Marshal sample_writeJSON
                   "yaml.encode" [starlark.Int 7; starlark.Int 8] []) = true.
Proof.
  split.
  - apply (positional_count_checked
             sample_Unmarshal sample_Marshal sample_writeJSON
             "yaml.decode" [] []). discriminate.
  - apply (positional_count_checked
             sample_Unmarshal sample_Marshal sample_writeJSON
             "yaml.encode" [starlark.Int 7; starlark.Int 8] []). discriminate.
Defined.

(** ** When the walk succeeds, and how it fails *)

Lemma convertible_GoMap (m : list (GoValue * GoValue)) :
  convertible (GoMap m) = true
  <-> Forall (fun kv => scalar (fst kv) = true /\ convertible (snd kv) = true)
             m.
Proof.
  simpl. induction m as [|[k v] rest IH]; split; intros H.
  - constructor.
  - reflexivity.
  - apply andb_true_iff in H. destruct H as [H Hrest].
    apply andb_true_iff in H. destruct H as [Hk Hv].
    constructor; [split; assumption|]. apply IH. exact Hrest.
  - inversion H as [|? ? [Hk Hv] Hrest]; subst. simpl in Hk, Hv.
    rewrite Hk, Hv. simpl. apply IH. exact Hrest.
Qed.

Lemma convertible_GoSlice (slice : list GoValue) :
  convertible (GoSlice slice) = true
  <-> Forall (fun e => convertible e = true) slice.
Proof.
  simpl. induction slice as [|element rest IH]; split; intros H.
  - constructor.
  - reflexivity.
  - apply andb_true_iff in H. destruct H as [He Hrest].
    constructor; [exact He|]. apply IH. exact Hrest.
  - inversion H as [|? ? He Hrest]; subst. rewrite He. simpl.
    apply IH. exact Hrest.
Qed.

(** A loop that succeeds has converted every element, in order. *)
Lemma rangeSlice_inv (slice : list GoValue) :
  forall starvals x,
    rangeSlice slice starvals = Ok x ->
    exists oks,
      x = starlark.List (starvals ++ oks)
      /\ Forall2 (fun element v => toStarlarkValue element = Ok v) slice oks.
Proof.
  induction slice as [|element rest IH]; intros starvals x; simpl.
  - intros H. inversion H. exists []. rewrite app_nil_r.
    split; [reflexivity|constructor].
  - destruct (toStarlarkValue element) as [v| |] eqn:Hv; simpl;
      try discriminate.
    intros H. destruct (IH _ _ H) as [oks [Hx Hall]].
    exists (v :: oks). split.
    + rewrite Hx, <- app_assoc. reflexivity.
    + constructor; assumption.
Qed.

(** A loop that succeeds has met scalar keys and values that convert. *)
Lemma rangeMap_inv (obj : GoValue) (m : list (GoValue * GoValue)) :
  forall ret x,
    rangeMap obj m ret = Ok x ->
    Forall (fun kv => scalar (fst kv) = true
                      /\ exists y, toStarlarkValue (snd kv) = Ok y) m.
Proof.
  induction m as [|[k v] rest IH]; intros ret x; simpl; [constructor|].
  destruct (toStarlarkScalarValue k) as [keyval|] eqn:Hk; [|discriminate].
  destruct (toStarlarkValue v) as [starval| |] eqn:Hv; simpl;
    try discriminate.
  destruct (starlark.SetKey ret keyval starval) as [err|ret'];
    [discriminate|].
  intros H. constructor.
  - simpl. split.
    + destruct (scalar k) eqn:Hs; [reflexivity|].
      apply toStarlarkScalarValue_scalar in Hs. congruence.
    + exists starval. exact Hv.
  - apply (IH _ _ H).
Qed.

Lemma rangeSlice_converts (slice : list GoValue) :
  Forall (fun e => exists x, toStarlarkValue e = Ok x) slice ->
  forall starvals, exists x, rangeSlice slice starvals = Ok x.
Proof.
  induction slice as [|element rest IH]; intros H starvals; simpl.
  - eexists. reflexivity.
  - inversion H as [|? ? [x Hx] Hrest]; subst. rewrite Hx. simpl.
    apply IH. exact Hrest.
Qed.

(** The walk succeeds exactly on the values made of scalars, slices, and
    maps under scalar keys: every other value, at any depth where the walk
    goes, makes it fail. *)
Theorem converts_iff_convertible :
  forall obj : GoValue,
    (exists x, toStarlarkValue obj = Ok x) <-> convertible obj = true.
Proof.
  induction obj as [ | w i | w u | b | w f | s | m IHm | slice IHs | k printed ]
    using GoValue_nested_ind;
    try (split; intros _; [reflexivity|eexists; reflexivity]).
  - rewrite toStarlarkValue_GoMap, convertible_GoMap. split.
    + intros [x Hx]. apply rangeMap_inv in Hx.
      rewrite Forall_forall in *. intros kv Hin.
      destruct (Hx kv Hin) as [Hk Hv]. split; [exact Hk|].
      apply (proj2 (IHm kv Hin)). exact Hv.
    + intros Hall.
      destruct (rangeMap_scalar_keys (GoMap m) m)
        with (ret := @Datatypes.nil (starlark.Value * starlark.Value))
        as [d [Hd _]].
      * rewrite Forall_forall in *. intros kv Hin.
        destruct (Hall kv Hin) as [Hk Hv]. split; [exact Hk|].
        apply (proj2 (IHm kv Hin)). exact Hv.
      * exists (starlark.Dict d). exact Hd.
  - rewrite toStarlarkValue_GoSlice, convertible_GoSlice. split.
    + intros [x Hx]. apply rangeSlice_inv in Hx.
      destruct Hx as [oks [_ Hall]].
      rewrite Forall_forall in *. intros e Hin. apply (IHs e Hin).
      clear IHs. induction Hall as [|e' v' l l' Hev Hall IH].
      * contradiction.
      * destruct Hin as [Heq|Hin]; [subst; eexists; exact Hev|auto].
    + intros Hall. apply rangeSlice_converts.
      rewrite Forall_forall in *. intros e Hin.
      apply (IHs e Hin). apply Hall. exact Hin.
  - split; [|discriminate]. intros [x Hx].
    destruct k; discriminate.
Qed.

(** A slice that converts gives a list, and the list holds the values its
    elements convert to, one for each element and in their order: no
    element is dropped, added or moved. *)
Theorem converted_list_is_elementwise :
  forall (slice : list GoValue) (x : starlark.Value),
    toStarlarkValue (GoSlice slice) = Ok x ->
    exists oks,
      x = starlark.List oks
      /\ List.length oks = List.length slice
      /\ Forall2 (fun element v => toStarlarkValue element = Ok v) slice oks.
Proof.
  intros slice x Hx. rewrite toStarlarkValue_GoSlice in Hx.
  destruct (rangeSlice_inv slice [] x Hx) as [oks [Heq Hall]].
  exists oks. repeat split.
  - exact Heq.
  - symmetry. apply (Forall2_length Hall).
  - exact Hall.
Qed.

Lemma converted_list_is_elementwise_witness :
  exists oks,
    starlark.List [starlark.Int 7; starlark.None] = starlark.List oks
    /\ List.length oks = 2%nat
    /\ Forall2 (fun element v => toStarlarkValue element = Ok v)
               [GoUint W8 7; nil] oks.
Proof.
  apply (converted_list_is_elementwise
           [GoUint W8 7; nil] (starlark.List [starlark.Int 7; starlark.None])).
  reflexivity.
Defined.

(** The loops pass on the errors of the values and add the key error. *)
Lemma rangeSlice_own_error (slice : list GoValue) :
  Forall (fun e => forall err, toStarlarkValue e = Err err -> own_error err)
         slice ->
  forall starvals err, rangeSlice slice starvals = Err err -> own_error err.
Proof.
  induction slice as [|element rest IH]; intros HP starvals err; simpl;
    [discriminate|].
  inversion HP as [|? ? He Hrest]; subst.
  destruct (toStarlarkValue element) as [v|err'|]; simpl.
  - apply IH. exact Hrest.
  - intros H. inversion H; subst. apply He. reflexivity.
  - discriminate.
Qed.

Lemma rangeMap_own_error (entries m : list (GoValue * GoValue)) :
  Forall (fun kv => forall err, toStarlarkValue (snd kv) = Err err ->
                                own_error err) m ->
  forall ret err,
    rangeMap (GoMap entries) m ret = Err err -> own_error err.
Proof.
  induction m as [|[k v] rest IH]; intros HP ret err; simpl;
    [discriminate|].
  inversion HP as [|? ? Hv Hrest]; subst. simpl in Hv.
  destruct (toStarlarkScalarValue k) as [keyval|] eqn:Hk.
  - destruct (toStarlarkValue v) as [starval|err'|]; simpl.
    + rewrite (SetKey_scalar k keyval Hk). apply IH. exact Hrest.
    + intros H. inversion H; subst. apply Hv. reflexivity.
    + discriminate.
  - intros H. inversion H. left. exists entries. reflexivity.
Qed.

(** The walk returns no error but the two it formats: an insertion into
    the dictionary never fails, since the keys it inserts are scalars. *)
Lemma toStarlarkValue_own_error (obj : GoValue) :
  forall err, toStarlarkValue obj = Err err -> own_error err.
Proof.
  induction obj as [ | w i | w u | b | w f | s | m IHm | slice IHs | k printed ]
    using GoValue_nested_ind; intros err; try discriminate.
  - rewrite toStarlarkValue_GoMap. apply rangeMap_own_error.
    eapply Forall_impl; [|exact IHm]. intros kv [_ Hv]. exact Hv.
  - rewrite toStarlarkValue_GoSlice. apply rangeSlice_own_error. exact IHs.
  - assert (Hcase : toStarlarkValue (GoOther k printed) = Panic
                    \/ toStarlarkValue (GoOther k printed)
                       = Err (NotSupportedType (Kind_of (GoOther k printed))
                                               (GoOther k printed))).
    { destruct k; auto. }
    destruct Hcase as [Hc|Hc]; rewrite Hc; [discriminate|].
    intros H. inversion H. right. exists k, printed. reflexivity.
Qed.

(** ** Panics *)

Lemma rangeSlice_no_panic (slice : list GoValue) :
  Forall (fun e => reaches_typed_container e = false ->
                   panics (toStarlarkValue e) = false) slice ->
  Forall (fun e => reaches_typed_container e = false) slice ->
  forall starvals, panics (rangeSlice slice starvals) = false.
Proof.
  induction slice as [|element rest IH]; intros HP Hfree starvals; simpl;
    [reflexivity|].
  inversion HP as [|? ? He HPrest]; inversion Hfree as [|? ? Hf Hfrest]; subst.
  specialize (He Hf).
  destruct (toStarlarkValue element) as [v|err|]; simpl; auto.
Qed.

Lemma rangeMap_no_panic (obj : GoValue) (m : list (GoValue * GoValue)) :
  Forall (fun kv => reaches_typed_container (snd kv) = false ->
                    panics (toStarlarkValue (snd kv)) = false) m ->
  Forall (fun kv => reaches_typed_container (snd kv) = false) m ->
  forall ret, panics (rangeMap obj m ret) = false.
Proof.
  induction m as [|[k v] rest IH]; intros HP Hfree ret; simpl;
    [reflexivity|].
  inversion HP as [|? ? Hv HPrest]; inversion Hfree as [|? ? Hf Hfrest]; subst.
  simpl in Hv, Hf. specialize (Hv Hf).
  destruct (toStarlarkScalarValue k) as [keyval|]; [|reflexivity].
  destruct (toStarlarkValue v) as [starval|err|]; simpl; auto.
  destruct (starlark.SetKey ret keyval starval); simpl; auto.
Qed.

Lemma reaches_typed_container_GoMap (m : list (GoValue * GoValue)) :
  reaches_typed_container (GoMap m) = false
  <-> Forall (fun kv => reaches_typed_container (snd kv) = false) m.
Proof.
  simpl. induction m as [|[k v] rest IH]; split; intros H.
  - constructor.
  - reflexivity.
  - apply orb_false_iff in H. destruct H as [Hv Hrest].
    constructor; [exact Hv|]. apply IH. exact Hrest.
  - inversion H as [|? ? Hv Hrest]; subst. apply orb_false_iff.
    split; [exact Hv|]. apply IH. exact Hrest.
Qed.

Lemma reaches_typed_container_GoSlice (slice : list GoValue) :
  reaches_typed_container (GoSlice slice) = false
  <-> Forall (fun e => reaches_typed_container e = false) slice.
Proof.
  simpl. induction slice as [|element rest IH]; split; intros H.
  - constructor.
  - reflexivity.
  - apply orb_false_iff in H. destruct H as [He Hrest].
    constructor; [exact He|]. apply IH. exact Hrest.
  - inversion H as [|? ? He Hrest]; subst. apply orb_false_iff.
    split; [exact He|]. apply IH. exact Hrest.
Qed.

(** The walk panics on nothing but a failed type assertion: when no map
    or slice of a type other than [map[interface{}]interface{}] and
    [[]interface{}] stands where the walk goes, it returns a value or an
    error.  A key of such a type does not make it panic. *)
Theorem no_panic_without_typed_container :
  forall obj : GoValue,
    reaches_typed_container obj = false ->
    panics (toStarlarkValue obj) = false.
Proof.
  induction obj as [ | w i | w u | b | w f | s | m IHm | slice IHs | k printed ]
    using GoValue_nested_ind; intros Hfree; try reflexivity.
  - rewrite toStarlarkValue_GoMap. apply rangeMap_no_panic.
    + eapply Forall_impl; [|exact IHm]. intros kv [_ Hv]. exact Hv.
    + apply reaches_typed_container_GoMap. exact Hfree.
  - rewrite toStarlarkValue_GoSlice. apply rangeSlice_no_panic.
    + exact IHs.
    + apply reaches_typed_container_GoSlice. exact Hfree.
  - destruct k; try reflexivity; discriminate.
Qed.

Lemma no_panic_without_typed_container_witness :
  panics
    (toStarlarkValue
       (GoMap [(GoOther TypedMap "map[a:1]", GoString "x");
               (GoString "y", GoSlice [GoOther OStruct "{}"])]))
  = false.
Proof.
  apply no_panic_without_typed_container. reflexivity.
Defined.

(** ** The dictionaries the walk builds *)

(** A hashable value equals itself. *)
Lemma Equal_refl_hashable (k : starlark.Value) :
  hashable k = true -> starlark.Equal k k = true.
Proof.
  destruct k as [ | b | n | f | s | elems | items ]; simpl;
    try discriminate; intros _.
  - reflexivity.
  - apply Bool.eqb_reflx.
  - apply Z.eqb_refl.
  - destruct f as [sg|sg| |sg m e]; try reflexivity.
    + destruct sg; reflexivity.
    + unfold starlark.floatCmp_eq, SFeqb, SFcompare.
      destruct sg; rewrite Z.compare_refl, Pos.compare_cont_refl; reflexivity.
  - apply String.eqb_refl.
Qed.

(** A key that took the scalar path is hashable. *)
Lemma scalar_key_hashable (k : GoValue) (keyval : starlark.Value) :
  toStarlarkScalarValue k = Some keyval -> hashable keyval = true.
Proof.
  destruct k; simpl; intros H; inversion H; reflexivity.
Qed.

Lemma Get_None_forallb (d : starlark.items) (k : starlark.Value) :
  starlark.Get d k = None
  <-> forallb (fun kv => negb (starlark.Equal k (fst kv))) d = true.
Proof.
  induction d as [|[k' v'] rest IH]; simpl.
  - split; reflexivity.
  - destruct (starlark.Equal k k'); simpl.
    + split; discriminate.
    + exact IH.
Qed.

Lemma insert_forallb_keys (P : starlark.Value -> bool) (d : starlark.items)
      (k v : starlark.Value) :
  forallb (fun kv => P (fst kv)) d = true -> P k = true ->
  forallb (fun kv => P (fst kv)) (starlark.insert d k v) = true.
Proof.
  intros Hd Hk. induction d as [|[k' v'] rest IH]; simpl in *.
  - rewrite Hk. reflexivity.
  - apply andb_true_iff in Hd. destruct Hd as [Hk' Hrest].
    destruct (starlark.Equal k k'); simpl; rewrite Hk'; simpl.
    + exact Hrest.
    + apply IH. exact Hrest.
Qed.

(** Insertion keeps the keys of a dictionary pairwise unequal. *)
Lemma keys_distinct_insert (d : starlark.items) (k v : starlark.Value) :
  keys_distinct d = true -> keys_distinct (starlark.insert d k v) = true.
Proof.
  induction d as [|[k' v'] rest IH]; simpl; [reflexivity|].
  intros H. apply andb_true_iff in H. destruct H as [Hk' Hrest].
  destruct (starlark.Equal k k') eqn:Hequal; simpl.
  - rewrite Hk', Hrest. reflexivity.
  - rewrite (IH Hrest), andb_true_r.
    apply (insert_forallb_keys (fun key => negb (starlark.Equal key k')));
      [exact Hk'|]. rewrite Hequal. reflexivity.
Qed.

Lemma insert_Forall (Q : starlark.Value -> starlark.Value -> Prop)
      (d : starlark.items) (k v : starlark.Value) :
  Forall (fun kv => Q (fst kv) (snd kv)) d ->
  Q k v ->
  (forall k', In k' (map fst d) -> Q k' v) ->
  Forall (fun kv => Q (fst kv) (snd kv)) (starlark.insert d k v).
Proof.
  intros Hd Hkv Hrepl. induction d as [|[k' v'] rest IH]; simpl.
  - constructor; [exact Hkv|constructor].
  - inversion Hd as [|? ? Hhead Hrest]; subst.
    destruct (starlark.Equal k k'); constructor; try assumption.
    + simpl. apply Hrepl. left. reflexivity.
    + apply IH; [exact Hrest|]. intros k'' Hin. apply Hrepl. right. exact Hin.
Qed.

Lemma well_formed_Dict (items : starlark.items) :
  well_formed (starlark.Dict items) = true
  <-> keys_distinct items = true
      /\ Forall (fun kv => hashable (fst kv) = true
                           /\ well_formed (snd kv) = true) items.
Proof.
  simpl. rewrite andb_true_iff.
  assert (Hall : forall l : starlark.items,
             (fix all (items : starlark.items) : bool :=
                match items with
                | [] => true
                | (k, v) :: rest => hashable k && well_formed v && all rest
                end) l = true
             <-> Forall (fun kv => hashable (fst kv) = true
                                   /\ well_formed (snd kv) = true) l).
  { induction l as [|[k v] rest IH]; split; intros H.
    - constructor.
    - reflexivity.
    - apply andb_true_iff in H. destruct H as [H Hrest].
      apply andb_true_iff in H. destruct H as [Hk Hv].
      constructor; [split; assumption|]. apply IH. exact Hrest.
    - inversion H as [|? ? [Hk Hv] Hrest]; subst. simpl in Hk, Hv.
      rewrite Hk, Hv. simpl. apply IH. exact Hrest. }
  rewrite Hall. reflexivity.
Qed.

Lemma well_formed_List (elems : list starlark.Value) :
  well_formed (starlark.List elems) = true
  <-> Forall (fun e => well_formed e = true) elems.
Proof.
  simpl. induction elems as [|e rest IH]; split; intros H.
  - constructor.
  - reflexivity.
  - apply andb_true_iff in H. destruct H as [He Hrest].
    constructor; [exact He|]. apply IH. exact Hrest.
  - inversion H as [|? ? He Hrest]; subst. rewrite He. simpl.
    apply IH. exact Hrest.
Qed.

Lemma rangeSlice_well_formed (slice : list GoValue) :
  Forall (fun e => forall x, toStarlarkValue e = Ok x ->
                             well_formed x = true) slice ->
  forall starvals x,
    Forall (fun e => well_formed e = true) starvals ->
    rangeSlice slice starvals = Ok x -> well_formed x = true.
Proof.
  induction slice as [|element rest IH]; intros HP starvals x Hacc; simpl.
  - intros H. inversion H. apply well_formed_List. exact Hacc.
  - inversion HP as [|? ? He Hrest]; subst.
    destruct (toStarlarkValue element) as [v| |]; simpl; try discriminate.
    apply (IH Hrest). apply Forall_app. split; [exact Hacc|].
    constructor; [|constructor]. apply He. reflexivity.
Qed.

Lemma rangeMap_well_formed (obj : GoValue) (m : list (GoValue * GoValue)) :
  Forall (fun kv => forall x, toStarlarkValue (snd kv) = Ok x ->
                              well_formed x = true) m ->
  forall ret x,
    well_formed (starlark.Dict ret) = true ->
    rangeMap obj m ret = Ok x -> well_formed x = true.
Proof.
  induction m as [|[k v] rest IH]; intros HP ret x Hret; simpl.
  - intros H. inversion H. exact Hret.
  - inversion HP as [|? ? Hv Hrest]; subst. simpl in Hv.
    destruct (toStarlarkScalarValue k) as [keyval|] eqn:Hk; [|discriminate].
    destruct (toStarlarkValue v) as [starval| |]; simpl; try discriminate.
    rewrite (SetKey_scalar k keyval Hk). apply (IH Hrest).
    apply well_formed_Dict in Hret. destruct Hret as [Hdistinct Hitems].
    apply well_formed_Dict. split.
    + apply keys_distinct_insert. exact Hdistinct.
    + apply (insert_Forall
               (fun key val => hashable key = true
                               /\ well_formed val = true)).
      * exact Hitems.
      * split; [apply (scalar_key_hashable k); exact Hk|].
        apply Hv. reflexivity.
      * intros k' Hin. split; [|apply Hv; reflexivity].
        rewrite Forall_forall in Hitems. apply in_map_iff in Hin.
        destruct Hin as [[k0 v0] [Heq Hin]]. simpl in Heq. subst k0.
        apply (Hitems (k', v0) Hin).
Qed.

Lemma toStarlarkValue_well_formed (obj : GoValue) :
  forall x, toStarlarkValue obj = Ok x -> well_formed x = true.
Proof.
  induction obj as [ | w i | w u | b | w f | s | m IHm | slice IHs | k printed ]
    using GoValue_nested_ind; intros x;
    try (simpl; intros H; inversion H; reflexivity).
  - rewrite toStarlarkValue_GoMap. apply rangeMap_well_formed.
    + eapply Forall_impl; [|exact IHm]. intros kv [_ Hv]. exact Hv.
    + reflexivity.
  - rewrite toStarlarkValue_GoSlice. apply rangeSlice_well_formed.
    + exact IHs.
    + constructor.
  - destruct k; discriminate.
Qed.

(** In a dictionary whose keys are hashable and pairwise unequal, every
    item is found under its key. *)
Lemma Get_item (d : starlark.items) :
  well_formed (starlark.Dict d) = true ->
  forall key val, In (key, val) d -> starlark.Get d key = Some val.
Proof.
  intros Hwf. apply well_formed_Dict in Hwf. destruct Hwf as [Hdistinct Hitems].
  induction d as [|[k0 v0] rest IH]; intros key val Hin; [contradiction|].
  simpl in Hdistinct. apply andb_true_iff in Hdistinct.
  destruct Hdistinct as [Hk0 Hrest].
  inversion Hitems as [|? ? [Hhash _] Hitems']; subst. simpl in Hhash.
  simpl. destruct Hin as [Heq|Hin].
  - inversion Heq; subst. rewrite (Equal_refl_hashable key Hhash).
    reflexivity.
  - rewrite forallb_forall in Hk0. specialize (Hk0 (key, val) Hin).
    simpl in Hk0. apply negb_true_iff in Hk0. rewrite Hk0.
    apply IH; assumption.
Qed.

(** What the walk returns is well formed at every depth: the keys of each
    dictionary are hashable and no two of them are equal.  So each item of
    a dictionary it returns is found by [Get] under its own key. *)
Theorem decoded_dictionaries_are_consistent :
  forall (obj : GoValue) (x : starlark.Value),
    toStarlarkValue obj = Ok x ->
    well_formed x = true
    /\ forall d key val,
         x = starlark.Dict d -> In (key, val) d ->
         starlark.Get d key = Some val.
Proof.
  intros obj x Hx. pose proof (toStarlarkValue_well_formed obj x Hx) as Hwf.
  split; [exact Hwf|].
  intros d key val Heq Hin. subst x. apply (Get_item d Hwf key val Hin).
Qed.

Lemma decoded_dictionaries_are_consistent_witness :
  well_formed
    (starlark.Dict
       [(starlark.Int 1, starlark.String "b");
        (starlark.String "k", starlark.Dict [(starlark.None, starlark.Int 2)])])
  = true.
Proof.
  apply (decoded_dictionaries_are_consistent
           (GoMap [(GoInt W 1, GoString "a");
                   (GoString "k", GoMap [(nil, GoInt W 2)]);
                   (GoFloat F64 (S754_finite false 4503599627370496 (-52)),
                    GoString "b")])).
  reflexivity.
Defined.

(** A key that differs from all the keys before it is not found among
    them. *)
Lemma keys_distinct_app_absent (ret rest : starlark.items)
      (k v : starlark.Value) :
  keys_distinct (ret ++ (k, v) :: rest) = true ->
  starlark.Get ret k = None.
Proof.
  induction ret as [|[k0 v0] ret' IH]; simpl; [reflexivity|].
  intros H. apply andb_true_iff in H. destruct H as [Hk0 Hrest].
  rewrite forallb_app in Hk0. apply andb_true_iff in Hk0.
  destruct Hk0 as [_ Hk0]. simpl in Hk0. apply andb_true_iff in Hk0.
  destruct Hk0 as [Hk _]. apply negb_true_iff in Hk. rewrite Hk.
  apply IH. exact Hrest.
Qed.

Lemma rangeMap_pairs (obj : GoValue) (m : list (GoValue * GoValue)) :
  forall (items ret : starlark.items),
    Forall2 (fun kv item =>
               toStarlarkScalarValue (fst kv) = Some (fst item)
               /\ toStarlarkValue (snd kv) = Ok (snd item)) m items ->
    keys_distinct (ret ++ items) = true ->
    rangeMap obj m ret = Ok (starlark.Dict (ret ++ items)).
Proof.
  induction m as [|[k v] rest IH]; intros items ret Hall Hdistinct;
    inversion Hall as [|? [key val] ? items' [Hk Hv] Hrest]; subst; simpl.
  - rewrite app_nil_r. reflexivity.
  - simpl in Hk, Hv. rewrite Hk, Hv. simpl.
    rewrite (SetKey_scalar k key Hk).
    rewrite (insert_absent ret key val
               (keys_distinct_app_absent ret items' key val Hdistinct)).
    replace (ret ++ (key, val) :: items')
      with ((ret ++ [(key, val)]) ++ items')
      by (rewrite <- app_assoc; reflexivity).
    apply IH; [exact Hrest|]. rewrite <- app_assoc. exact Hdistinct.
Qed.

(** Every key and value pair is kept: when the keys of a map convert to
    runtime keys no two of which are equal, the map converts to the
    dictionary of the converted pairs, one item for each entry, in the
    order the entries were visited. *)
Theorem map_pairs_preserved :
  forall (m : list (GoValue * GoValue)) (items : starlark.items),
    Forall2 (fun kv item =>
               toStarlarkScalarValue (fst kv) = Some (fst item)
               /\ toStarlarkValue (snd kv) = Ok (snd item)) m items ->
    keys_distinct items = true ->
    toStarlarkValue (GoMap m) = Ok (starlark.Dict items).
Proof.
  intros m items Hall Hdistinct. rewrite toStarlarkValue_GoMap.
  apply (rangeMap_pairs (GoMap m) m items [] Hall Hdistinct).
Qed.

Lemma map_pairs_preserved_witness :
  toStarlarkValue
    (GoMap [(GoString "a", GoInt W 1); (GoInt W64 2, GoSlice [GoBool true]);
            (GoBool true, nil)])
  = Ok (starlark.Dict
          [(starlark.String "a", starlark.Int 1);
           (starlark.Int 2, starlark.List [starlark.Bool true]);
           (starlark.Bool true, starlark.None)]).
Proof.
  apply map_pairs_preserved.
  - repeat constructor.
  - reflexivity.
Defined.

(** The keys of the dictionary under construction: insertion keeps them,
    adds at most the key inserted, and leaves the key inserted findable. *)
Lemma insert_key_mono (d : starlark.items) (k v key : starlark.Value) :
  In key (map fst d) -> In key (map fst (starlark.insert d k v)).
Proof.
  induction d as [|[k' v'] rest IH]; simpl; [contradiction|].
  destruct (starlark.Equal k k'); simpl; intros [Heq|Hin]; auto.
Qed.

Lemma insert_key_in (d : starlark.items) (k v key : starlark.Value) :
  In key (map fst (starlark.insert d k v)) -> In key (map fst d) \/ key = k.
Proof.
  induction d as [|[k' v'] rest IH]; simpl.
  - intros [Heq|[]]. right. symmetry. exact Heq.
  - destruct (starlark.Equal k k'); simpl; intros [Heq|Hin]; auto.
    destruct (IH Hin) as [H|H]; auto.
Qed.

Lemma insert_key_found (d : starlark.items) (k v : starlark.Value) :
  hashable k = true ->
  exists key1,
    In key1 (map fst (starlark.insert d k v))
    /\ starlark.Equal k key1 = true.
Proof.
  intros Hhash. induction d as [|[k' v'] rest IH]; simpl.
  - exists k. split; [left; reflexivity|].
    apply Equal_refl_hashable. exact Hhash.
  - destruct (starlark.Equal k k') eqn:Hequal; simpl.
    + exists k'. split; [left; reflexivity|exact Hequal].
    + destruct IH as [key1 [Hin Heq]]. exists key1. split; [right|]; assumption.
Qed.

Lemma rangeMap_keys (obj : GoValue) (m : list (GoValue * GoValue)) :
  forall ret d,
    rangeMap obj m ret = Ok (starlark.Dict d) ->
    (forall key, In key (map fst ret) -> In key (map fst d))
    /\ (forall key, In key (map fst d) ->
                    In key (map fst ret)
                    \/ exists k v, In (k, v) m
                                   /\ toStarlarkScalarValue k = Some key)
    /\ (forall k v, In (k, v) m ->
                    exists key key1,
                      toStarlarkScalarValue k = Some key
                      /\ In key1 (map fst d)
                      /\ starlark.Equal key key1 = true).
Proof.
  induction m as [|[k v] rest IH]; intros ret d; simpl.
  - intros H. inversion H; subst. repeat split; auto. intros k v [].
  - destruct (toStarlarkScalarValue k) as [keyval|] eqn:Hk; [|discriminate].
    destruct (toStarlarkValue v) as [starval| |]; simpl; try discriminate.
    rewrite (SetKey_scalar k keyval Hk). intros H.
    destruct (IH _ _ H) as [Hmono [Hfrom Hfound]]. repeat split.
    + intros key Hin. apply Hmono. apply insert_key_mono. exact Hin.
    + intros key Hin. destruct (Hfrom key Hin) as [Hret|[k0 [v0 [Hin0 Hk0]]]].
      * destruct (insert_key_in _ _ _ _ Hret) as [Hold|Hnew];
          [left; exact Hold|].
        subst key. right. exists k, v. split; [left; reflexivity|exact Hk].
      * right. exists k0, v0. split; [right; exact Hin0|exact Hk0].
    + intros k0 v0 [Heq|Hin0].
      * inversion Heq; subst.
        destruct (insert_key_found ret keyval starval
                    (scalar_key_hashable k0 keyval Hk)) as [key1 [Hin1 Heq1]].
        exists keyval, key1. repeat split; auto.
      * apply Hfound with (v := v0). exact Hin0.
Qed.

(** No key is dropped and none is made up: every key of the dictionary a
    map converts to is the conversion of a key of the map, and the
    conversion of every key of the map is found in the dictionary. *)
Theorem map_keys_kept :
  forall (m : list (GoValue * GoValue)) (d : starlark.items),
    toStarlarkValue (GoMap m) = Ok (starlark.Dict d) ->
    (forall key, In key (map fst d) ->
                 exists k v, In (k, v) m
                             /\ toStarlarkScalarValue k = Some key)
    /\ (forall k v, In (k, v) m ->
                    exists key x,
                      toStarlarkScalarValue k = Some key
                      /\ starlark.Get d key = Some x).
Proof.
  intros m d Hd. rewrite toStarlarkValue_GoMap in Hd.
  destruct (rangeMap_keys _ _ _ _ Hd) as [_ [Hfrom Hfound]]. split.
  - intros key Hin. destruct (Hfrom key Hin) as [[]|H]. exact H.
  - intros k v Hin. destruct (Hfound k v Hin) as [key [key1 [Hk [Hin1 Heq]]]].
    pose proof (Get_equal_key d key key1 Hin1 Heq) as Hget.
    destruct (starlark.Get d key) as [x|] eqn:Hx; [|congruence].
    exists key, x. split; [exact Hk|exact Hx].
Qed.

Lemma map_keys_kept_witness :
  exists key x,
    toStarlarkScalarValue (GoUint W 1) = Some key
    /\ starlark.Get [(starlark.Int 1, starlark.String "unsigned")] key
       = Some x.
Proof.
  apply (map_keys_kept
           [(GoInt W 1, GoString "signed"); (GoUint W 1, GoString "unsigned")]
           [(starlark.Int 1, starlark.String "unsigned")]
           eq_refl)
    with (v := GoString "unsigned").
  right. left. reflexivity.
Defined.

(** ** The outcomes of the entry points *)

Section EntryPointOutcomes.

Variable yaml_Unmarshal : string -> string + option GoValue.
Variable yaml_Marshal : GoValue -> string + string.
Variable writeJSON : starlark.Value -> string + string.

Local Abbreviation decode := (yamlDecode yaml_Unmarshal).
Local Abbreviation encode := (yamlEncode yaml_Unmarshal yaml_Marshal writeJSON).

(** A value whose type is not "string" is not a [String]. *)
Lemma Type_not_string (v : starlark.Value) (s : string) :
  starlark.Type_ v <> "string" -> v <> starlark.String s.
Proof.
  intros Htype Heq. subst v. apply Htype. reflexivity.
Qed.

(** An error of [starlark] that an entry point returns comes from the
    unpacking of the arguments and names the function. *)
Lemma yamlDecode_starlark_error (fn_Name : string) (args : starlark.Tuple)
      (kwargs : list starlark.Tuple) (err : starlark.error) :
  decode fn_Name args kwargs = Err (StarlarkError err) ->
  error_fnname err = Some fn_Name.
Proof.
  destruct args as [|v [|w rest]]; try (intros H; inversion H; reflexivity).
  destruct v as [ | b | n | f | blob | elems | items ];
    try (intros H; inversion H; reflexivity).
  rewrite yamlDecode_one_string.
  destruct (yaml_Unmarshal blob) as [msg|r]; [discriminate|].
  intros H. apply toStarlarkValue_own_error in H.
  destruct H as [[entries H]|[k [printed H]]]; discriminate.
Qed.

Lemma yamlEncode_starlark_error (fn_Name : string) (args : starlark.Tuple)
      (kwargs : list starlark.Tuple) (err : starlark.error) :
  encode fn_Name args kwargs = Err (StarlarkError err) ->
  error_fnname err = Some fn_Name.
Proof.
  destruct args as [|v [|w rest]]; try (intros H; inversion H; reflexivity).
  rewrite yamlEncode_one_value.
  unfold encode_composition, JSONEncode, YAMLParse, YAMLSerialize.
  destruct (writeJSON v) as [msg|json]; [discriminate|]. simpl.
  destruct (yaml_Unmarshal json) as [msg|r]; [discriminate|]. simpl.
  destruct (yaml_Marshal (unmarshalled nil r)); discriminate.
Qed.

(** When [yamlDecode] returns a value, it was given one positional
    argument, a string; the parser accepted the string; and the value is
    the conversion of what the parser left, well formed at every depth. *)
Theorem yamlDecode_success :
  forall (fn_Name : string) (args : starlark.Tuple)
         (kwargs : list starlark.Tuple) (x : starlark.Value),
    decode fn_Name args kwargs = Ok x ->
    exists blob r,
      args = [starlark.String blob]
      /\ yaml_Unmarshal blob = inr r
      /\ toStarlarkValue (unmarshalled nil r) = Ok x
      /\ well_formed x = true.
Proof.
  intros fn_Name args kwargs x.
  destruct args as [|v [|w rest]]; try discriminate.
  destruct v as [ | b | n | f | blob | elems | items ]; try discriminate.
  rewrite yamlDecode_one_string.
  destruct (yaml_Unmarshal blob) as [msg|r] eqn:Hparse; [discriminate|].
  intros Hx. exists blob, r. repeat split; auto.
  apply (toStarlarkValue_well_formed _ _ Hx).
Qed.

(** The errors of [yamlDecode], in the order the code can raise them: an
    argument error that names the function (the count of positional
    arguments is not one, or the argument is not a string); the error of
    the parser, as the parser gave it; or one of the two errors of the
    walk over what the parser left. *)
Theorem yamlDecode_error_taxonomy :
  forall (fn_Name : string) (args : starlark.Tuple)
         (kwargs : list starlark.Tuple) (e : error),
    decode fn_Name args kwargs = Err e ->
    (exists err,
        e = StarlarkError err
        /\ error_fnname err = Some fn_Name
        /\ (List.length args <> 1%nat
            \/ exists v, args = [v] /\ starlark.Type_ v <> "string"))
    \/ (exists blob msg,
           args = [starlark.String blob]
           /\ yaml_Unmarshal blob = inl msg
           /\ e = CodecError msg)
    \/ (exists blob r,
           args = [starlark.String blob]
           /\ yaml_Unmarshal blob = inr r
           /\ toStarlarkValue (unmarshalled nil r) = Err e
           /\ own_error e).
Proof.
  intros fn_Name args kwargs e.
  destruct args as [|v [|w rest]].
  - intros H. inversion H. left. eexists. repeat split.
    left. discriminate.
  - destruct v as [ | b | n | f | blob | elems | items ];
      try (intros H; inversion H; left; eexists; repeat split;
           right; eexists; split; [reflexivity|discriminate]).
    rewrite yamlDecode_one_string.
    destruct (yaml_Unmarshal blob) as [msg|r] eqn:Hparse.
    + intros H. inversion H. right. left. exists blob, msg. auto.
    + intros H. right. right. exists blob, r. repeat split; auto.
      apply (toStarlarkValue_own_error _ _ H).
  - intros H. inversion H. left. eexists. repeat split.
    left. discriminate.
Qed.


(** An error of [starlark] that comes out of a member of the module is an
    argument error, and it names the function by the name of the builtin,
    "yaml.decode" or "yaml.encode", also when the member was reached
    through [unmarshal] or [marshal]. *)
Theorem module_errors_name_the_builtin :
  forall (name : string) (args : starlark.Tuple)
         (kwargs : list starlark.Tuple) (err : starlark.error),
    call yaml_Unmarshal yaml_Marshal writeJSON name args kwargs
    = Some (Err (StarlarkError err)) ->
    ((name = "decode" \/ name = "unmarshal")
     /\ error_fnname err = Some "yaml.decode")
    \/ ((name = "encode" \/ name = "marshal")
        /\ error_fnname err = Some "yaml.encode").
Proof.
  intros name args kwargs err. unfold call. simpl.
  destruct (String.eqb name "decode") eqn:Hd;
    [apply String.eqb_eq in Hd|
     destruct (String.eqb name "encode") eqn:He;
     [apply String.eqb_eq in He|
      destruct (String.eqb name "marshal") eqn:Hm;
      [apply String.eqb_eq in Hm|
       destruct (String.eqb name "unmarshal") eqn:Hu;
       [apply String.eqb_eq in Hu|discriminate]]]];
    simpl; unfold CallInternal; simpl; intros H; inversion H as [Hcall];
    clear H.
  - left. split; [left; exact Hd|].
    apply (yamlDecode_starlark_error _ _ _ _ Hcall).
  - right. split; [left; exact He|].
    apply (yamlEncode_starlark_error _ _ _ _ Hcall).
  - right. split; [right; exact Hm|].
    apply (yamlEncode_starlark_error _ _ _ _ Hcall).
  - left. split; [right; exact Hu|].
    apply (yamlDecode_starlark_error _ _ _ _ Hcall).
Qed.

End EntryPointOutcomes.

(** ** The outcomes on concrete inputs *)

Lemma converts_iff_convertible_witness :
  exists x,
    toStarlarkValue
      (GoMap [(GoString "hello", GoSlice [GoString "world"]);
              (GoInt W 2, GoMap [(nil, GoFloat F32 (S754_zero false))])])
    = Ok x.
Proof.
  apply (proj2 (converts_iff_convertible
                  (GoMap [(GoString "hello", GoSlice [GoString "world"]);
                          (GoInt W 2,
                           GoMap [(nil, GoFloat F32 (S754_zero false))])]))).
  reflexivity.
Defined.

Lemma yamlDecode_success_witness :
  exists blob r,
    [starlark.String "7"] = [starlark.String blob]
    /\ sample_Unmarshal blob = inr r
    /\ toStarlarkValue (unmarshalled nil r) = Ok (starlark.Int 7)
    /\ well_formed (starlark.Int 7) = true.
Proof.
  apply (yamlDecode_success sample_Unmarshal "yaml.decode"
                            [starlark.String "7"] [] (starlark.Int 7)).
  reflexivity.
Defined.

Lemma yamlDecode_error_taxonomy_witness :
  (exists err,
      CodecError "sample: input not covered" = StarlarkError err
      /\ error_fnname err = Some "yaml.decode"
      /\ (List.length [starlark.String "a: ["] <> 1%nat
          \/ exists v, [starlark.String "a: ["] = [v]
                       /\ starlark.Type_ v <> "string"))
  \/ (exists blob msg,
         [starlark.String "a: ["] = [starlark.String blob]
         /\ sample_Unmarshal blob = inl msg
         /\ CodecError "sample: input not covered" = CodecError msg)
  \/ (exists blob r,
         [starlark.String "a: ["] = [starlark.String blob]
         /\ sample_Unmarshal blob = inr r
         /\ toStarlarkValue (unmarshalled nil r)
            = Err (CodecError "sample: input not covered")
         /\ own_error (CodecError "sample: input not covered")).
Proof.
  apply (yamlDecode_error_taxonomy sample_Unmarshal "yaml.decode"
                                   [starlark.String "a: ["] []).
  reflexivity.
Defined.


Lemma module_errors_name_the_builtin_witness :
  (("marshal" = "decode" \/ "marshal" = "unmarshal")
   /\ error_fnname (starlark.GotArguments "yaml.encode" 0 false false 1)
      = Some "yaml.decode")
  \/ (("marshal" = "encode" \/ "marshal" = "marshal")
      /\ error_fnname (starlark.GotArguments "yaml.encode" 0 false false 1)
         = Some "yaml.encode").
Proof.
  apply (module_errors_name_the_builtin
           sample_Unmarshal sample_Marshal sample_writeJSON
           "marshal" [] []).
  reflexivity.
Defined.

(** ** Kinds and failures *)

(** The type of a converted value follows from the kind of the value it
    comes from alone: an integer of any width or sign gives an "int" and
    no "float", a float of either width a "float", a map a "dict", a
    slice a "list". *)
Theorem converted_type_follows_kind :
  forall (obj : GoValue) (x : starlark.Value),
    toStarlarkValue obj = Ok x ->
    starlark.Type_ x = converted_type obj.
Proof.
  intros obj x.
  destruct obj as [ | w i | w u | b | w f | s | m | slice | k printed ].
  - intros H. inversion H. reflexivity.
  - intros H. inversion H. destruct w; reflexivity.
  - intros H. inversion H. destruct w; reflexivity.
  - intros H. inversion H. reflexivity.
  - intros H. inversion H. destruct w; reflexivity.
  - intros H. inversion H. reflexivity.
  - rewrite toStarlarkValue_GoMap. intros H.
    destruct (rangeMap_Ok_Dict _ _ _ _ H) as [d Hd]. subst x. reflexivity.
  - rewrite toStarlarkValue_GoSlice. intros H.
    destruct (rangeSlice_inv _ _ _ H) as [oks [Hx _]]. subst x. reflexivity.
  - destruct k; discriminate.
Qed.

Lemma converted_type_follows_kind_witness :
  starlark.Type_ (starlark.Int 18446744073709551615) = "int".
Proof.
  apply (converted_type_follows_kind (GoUint W64 18446744073709551615)).
  reflexivity.
Defined.

(** The failure of a value of a map is passed on as it is: when the
    entries before it convert and its key is a scalar, the map gives what
    the value gave, whatever follows. *)
Theorem map_value_failure_passed_on :
  forall (pre post : list (GoValue * GoValue)) (k v : GoValue)
         (x : starlark.Value) (r : result starlark.Value),
    toStarlarkValue (GoMap pre) = Ok x ->
    scalar k = true ->
    toStarlarkValue v = r ->
    (forall y, r <> Ok y) ->
    toStarlarkValue (GoMap (pre ++ (k, v) :: post)) = r.
Proof.
  intros pre post k v x r Hpre Hk Hr Hfail.
  rewrite toStarlarkValue_GoMap in Hpre |- *.
  destruct (rangeMap_Ok_Dict _ _ _ _ Hpre) as [d Hd]. subst x.
  apply (rangeMap_Ok_any_obj _ (GoMap (pre ++ (k, v) :: post))) in Hpre.
  rewrite (rangeMap_app _ pre ((k, v) :: post) [] d Hpre). simpl.
  destruct (toStarlarkScalarValue k) as [keyval|] eqn:Hkey.
  - rewrite Hr. destruct r as [y| |]; simpl; try reflexivity.
    exfalso. apply (Hfail y). reflexivity.
  - apply toStarlarkScalarValue_scalar in Hkey. congruence.
Qed.

Lemma map_value_failure_passed_on_witness :
  toStarlarkValue
    (GoMap ([(GoString "a", GoInt W 1)]
            ++ (GoString "b",
                GoMap [(GoSlice [], GoString "inner")])
            :: [(GoString "c", GoBool true)]))
  = Err (NotSupportedKeyType reflect.Map
           (GoMap [(GoSlice [], GoString "inner")])).
Proof.
  apply (map_value_failure_passed_on
           [(GoString "a", GoInt W 1)] [(GoString "c", GoBool true)]
           (GoString "b") (GoMap [(GoSlice [], GoString "inner")])
           (starlark.Dict [(starlark.String "a", starlark.Int 1)])).
  - reflexivity.
  - reflexivity.
  - reflexivity.
  - discriminate.
Defined.
